(** * Standings model of the tournament backend

    A shallow embedding of [src/models/Leaderboard.ts] (the [Leaderboard]
    model: its entry record, its instance methods on [this.standings], the
    static [createEntryFromMatch] and the [isStandingsValid] validator) and of
    the score and team-name validation of the [Match] model, together with
    the properties the specification states about them. *)

From Stdlib Require Import ZArith String Ascii List Bool Lia.
From Stdlib Require Import Sorted Permutation.
From Stdlib Require Import OrderedTypeEx DecimalString.
From stdpp Require Import base list.

Local Open Scope string_scope.
Local Open Scope list_scope.
Local Open Scope Z_scope.

(** ** Data model *)

(** [interface LeaderboardEntry].  The numeric fields hold integer counters;
    on integers in the safe range the arithmetic of JavaScript numbers is
    exact, so they are modelled by [Z]. *)
Record LeaderboardEntry : Type := mkEntry {
  teamName : string;
  played : Z;
  won : Z;
  drawn : Z;
  lost : Z;
  goalsFor : Z;
  goalsAgainst : Z;
  goalDifference : Z;
  points : Z
}.

(** The attributes of a [Leaderboard] instance that its methods read or
    write ([this]); the timestamps play no role in the standings. *)
Record Leaderboard : Type := mkLeaderboard {
  divisionId : Z;
  standings : list LeaderboardEntry;
  season : option string;
  tournamentId : option Z;
  cupId : option Z
}.

(** The two string built-ins of the runtime that the model calls,
    [String.prototype.toLowerCase] and [String.prototype.localeCompare].
    Their results depend on the runtime (its Unicode tables and its default
    locale), so they are taken as an interface.  The two laws say that
    [localeCompare] is a consistent comparator, which ECMAScript requires
    of it: swapping the arguments flips the sign, and being in order is
    transitive. *)
Class StringBuiltins : Type := {
  toLowerCase : string -> string;
  localeCompare : string -> string -> Z;
  localeCompare_antisym :
    forall a b, Z.sgn (localeCompare b a) = - Z.sgn (localeCompare a b);
  localeCompare_trans :
    forall a b c,
      localeCompare a b <= 0 -> localeCompare b c <= 0 -> localeCompare a c <= 0
}.

(** ** Array built-ins *)

Section ArrayBuiltins.
Context {A : Type}.

(** [Array.prototype.findIndex]: the index of the first element that
    satisfies the predicate, [-1] when there is none. *)
Fixpoint findIndexFrom (k : Z) (p : A -> bool) (l : list A) : Z :=
  match l with
  | [] => -1
  | x :: l' => if p x then k else findIndexFrom (k + 1) p l'
  end.

Definition findIndex (p : A -> bool) (l : list A) : Z := findIndexFrom 0 p l.

(** How [slice] and [splice] read an integer index against the length: a
    negative index counts from the end, and the result is clamped to
    [0 .. len]. *)
Definition relativeIndex (len i : Z) : Z :=
  if i <? 0 then Z.max (len + i) 0 else Z.min i len.

(** [Array.prototype.slice(start, end)]: a new array with the elements from
    [start] up to, not including, [end]. *)
Definition slice (start end_ : Z) (l : list A) : list A :=
  let len := Z.of_nat (length l) in
  let k := relativeIndex len start in
  let final := relativeIndex len end_ in
  firstn (Z.to_nat (final - k)) (skipn (Z.to_nat k) l).

(** [Array.prototype.splice(start, deleteCount)]: the array without the
    [deleteCount] elements from [start] on. *)
Definition splice (start deleteCount : Z) (l : list A) : list A :=
  let len := Z.of_nat (length l) in
  let k := relativeIndex len start in
  let n := Z.min (Z.max deleteCount 0) (len - k) in
  firstn (Z.to_nat k) l ++ skipn (Z.to_nat (k + n)) l.

(** [Array.prototype.sort(comparefn)].  The sort is stable (ECMAScript 2019),
    and for a consistent comparator the stable sorted arrangement does not
    depend on the algorithm; it is computed here by stable insertion: an
    element goes in front of the first later element that does not have to
    come before it. *)
Fixpoint sortInsert (comparefn : A -> A -> Z) (x : A) (l : list A) : list A :=
  match l with
  | [] => [x]
  | y :: l' =>
      if comparefn x y <=? 0 then x :: y :: l'
      else y :: sortInsert comparefn x l'
  end.

Fixpoint sort (comparefn : A -> A -> Z) (l : list A) : list A :=
  match l with
  | [] => []
  | x :: l' => sortInsert comparefn x (sort comparefn l')
  end.

End ArrayBuiltins.

(** ** The Leaderboard methods *)

(** A method reads and writes [this] and returns a value. *)
Definition Method (R : Type) : Type := Leaderboard -> R * Leaderboard.

Definition ret {R : Type} (r : R) : Method R := fun this => (r, this).

Definition bind {R S : Type} (m : Method R) (k : R -> Method S) : Method S :=
  fun this => let (r, this') := m this in k r this'.

Notation "x <- m ;; k" := (bind m (fun x => k))
  (at level 100, m at next level, right associativity).
Notation "m ;;; k" := (bind m (fun _ => k))
  (at level 100, right associativity).

(** Read [this.standings]. *)
Definition getStandings : Method (list LeaderboardEntry) :=
  fun this => (standings this, this).

(** Assign or update in place the array held in [this.standings]. *)
Definition setStandings (s : list LeaderboardEntry) : Method unit :=
  fun this =>
    (tt, {| divisionId := divisionId this; standings := s;
            season := season this; tournamentId := tournamentId this;
            cupId := cupId this |}).

(** The state a method leaves and the value it returns. *)
Definition exec {R : Type} (m : Method R) (this : Leaderboard) : Leaderboard :=
  snd (m this).

Definition result {R : Type} (m : Method R) (this : Leaderboard) : R :=
  fst (m this).

Section Methods.
Context `{StringBuiltins}.

(** [a.teamName.toLowerCase() === name.toLowerCase()] *)
Definition sameTeam (name : string) (entry : LeaderboardEntry) : bool :=
  String.eqb (toLowerCase (teamName entry)) (toLowerCase name).

(** [getTeamStanding]: [find] returns the first match, [null] is [None]. *)
Definition getTeamStanding (name : string) : Method (option LeaderboardEntry) :=
  s <- getStandings ;;
  ret (find (sameTeam name) s).

(** [getTopTeams] *)
Definition getTopTeams (count : Z) : Method (list LeaderboardEntry) :=
  s <- getStandings ;;
  ret (slice 0 count s).

(** The comparator of [sortStandings]. *)
Definition compareStandings (a b : LeaderboardEntry) : Z :=
  if negb (points b =? points a) then points b - points a
  else if negb (goalDifference b =? goalDifference a)
       then goalDifference b - goalDifference a
  else if negb (goalsFor b =? goalsFor a) then goalsFor b - goalsFor a
  else localeCompare (teamName a) (teamName b).

(** [sortStandings]: sorts [this.standings] in place. *)
Definition sortStandings : Method unit :=
  s <- getStandings ;;
  setStandings (sort compareStandings s).

(** [addOrUpdateTeam] *)
Definition addOrUpdateTeam (entry : LeaderboardEntry) : Method unit :=
  s <- getStandings ;;
  let existingIndex := findIndex (sameTeam (teamName entry)) s in
  (if 0 <=? existingIndex
   then setStandings (<[Z.to_nat existingIndex := entry]> s)
   else setStandings (s ++ [entry])) ;;;
  sortStandings.

(** [removeTeam] *)
Definition removeTeam (name : string) : Method bool :=
  s <- getStandings ;;
  let index := findIndex (sameTeam name) s in
  if 0 <=? index
  then setStandings (splice index 1 s) ;;; ret true
  else ret false.

End Methods.

(** ** The static method createEntryFromMatch *)

(** The entry the static method starts from: [existingEntry || { ... }]. *)
Definition zeroEntry (name : string) : LeaderboardEntry :=
  mkEntry name 0 0 0 0 0 0 0 0.

(** Assignments to single fields of an entry. *)
Definition setPlayed (v : Z) (e : LeaderboardEntry) : LeaderboardEntry :=
  mkEntry (teamName e) v (won e) (drawn e) (lost e) (goalsFor e)
    (goalsAgainst e) (goalDifference e) (points e).

Definition setWon (v : Z) (e : LeaderboardEntry) : LeaderboardEntry :=
  mkEntry (teamName e) (played e) v (drawn e) (lost e) (goalsFor e)
    (goalsAgainst e) (goalDifference e) (points e).

Definition setDrawn (v : Z) (e : LeaderboardEntry) : LeaderboardEntry :=
  mkEntry (teamName e) (played e) (won e) v (lost e) (goalsFor e)
    (goalsAgainst e) (goalDifference e) (points e).

Definition setLost (v : Z) (e : LeaderboardEntry) : LeaderboardEntry :=
  mkEntry (teamName e) (played e) (won e) (drawn e) v (goalsFor e)
    (goalsAgainst e) (goalDifference e) (points e).

Definition setGoalsFor (v : Z) (e : LeaderboardEntry) : LeaderboardEntry :=
  mkEntry (teamName e) (played e) (won e) (drawn e) (lost e) v
    (goalsAgainst e) (goalDifference e) (points e).

Definition setGoalsAgainst (v : Z) (e : LeaderboardEntry) : LeaderboardEntry :=
  mkEntry (teamName e) (played e) (won e) (drawn e) (lost e) (goalsFor e)
    v (goalDifference e) (points e).

Definition setGoalDifference (v : Z) (e : LeaderboardEntry)
    : LeaderboardEntry :=
  mkEntry (teamName e) (played e) (won e) (drawn e) (lost e) (goalsFor e)
    (goalsAgainst e) v (points e).

Definition setPoints (v : Z) (e : LeaderboardEntry) : LeaderboardEntry :=
  mkEntry (teamName e) (played e) (won e) (drawn e) (lost e) (goalsFor e)
    (goalsAgainst e) (goalDifference e) v.

(** [createEntryFromMatch], one [let] per statement.  When [existingEntry]
    is given the method updates that very object and returns it; the model
    returns the value the object then holds.  A table that holds the object
    sees the update at once; [upserted_in_place] below shows that
    [addOrUpdateTeam] then leaves the same table as the model. *)
Definition createEntryFromMatch (name : string)
    (existingEntry : option LeaderboardEntry) (isHome : bool)
    (homeScore awayScore : Z) : LeaderboardEntry :=
  let baseEntry :=
    match existingEntry with Some e => e | None => zeroEntry name end in
  let teamScore := if isHome then homeScore else awayScore in
  let opponentScore := if isHome then awayScore else homeScore in
  let baseEntry := setPlayed (played baseEntry + 1) baseEntry in
  let baseEntry := setGoalsFor (goalsFor baseEntry + teamScore) baseEntry in
  let baseEntry :=
    setGoalsAgainst (goalsAgainst baseEntry + opponentScore) baseEntry in
  let baseEntry :=
    setGoalDifference (goalsFor baseEntry - goalsAgainst baseEntry) baseEntry in
  if teamScore >? opponentScore then
    let baseEntry := setWon (won baseEntry + 1) baseEntry in
    setPoints (points baseEntry + 3) baseEntry
  else if teamScore =? opponentScore then
    let baseEntry := setDrawn (drawn baseEntry + 1) baseEntry in
    setPoints (points baseEntry + 1) baseEntry
  else
    setLost (lost baseEntry + 1) baseEntry.

(** ** Applying a match result *)

(** The completed-match event the standings are updated from. *)
Record MatchResult : Type := mkMatchResult {
  mrHomeTeam : string;
  mrAwayTeam : string;
  mrHomeScore : Z;
  mrAwayScore : Z
}.

Section Apply.
Context `{StringBuiltins}.

(** One team's share of a match: look the team up, build its entry with
    [createEntryFromMatch], store it with [addOrUpdateTeam]. *)
Definition applyTeamResult (name : string) (isHome : bool)
    (homeScore awayScore : Z) : Method unit :=
  existing <- getTeamStanding name ;;
  addOrUpdateTeam
    (createEntryFromMatch name existing isHome homeScore awayScore).

(** The calls by which a match result is applied to the table:
    [createEntryFromMatch] followed by [addOrUpdateTeam], for the home team
    and then for the away team.  The repository defines the calls and
    leaves their sequence to the caller. *)
Definition applyMatchResult (homeTeam awayTeam : string)
    (homeScore awayScore : Z) : Method unit :=
  applyTeamResult homeTeam true homeScore awayScore ;;;
  applyTeamResult awayTeam false homeScore awayScore.

(** A sequence of match results, applied in order. *)
Fixpoint applyMatches (ms : list MatchResult) : Method unit :=
  match ms with
  | [] => ret tt
  | m :: ms' =>
      applyMatchResult (mrHomeTeam m) (mrAwayTeam m)
        (mrHomeScore m) (mrAwayScore m) ;;;
      applyMatches ms'
  end.

End Apply.

(** ** Validation *)

(** What a call that may throw ends in. *)
Inductive Outcome (R : Type) : Type :=
| Returned (r : R)
| Threw (message : string).

Arguments Returned {R} r.
Arguments Threw {R} message.

Definition andThen {R S : Type} (o : Outcome R) (k : R -> Outcome S)
    : Outcome S :=
  match o with
  | Returned r => k r
  | Threw message => Threw message
  end.

Notation "x <-- o ;; k" := (andThen o (fun x => k))
  (at level 100, o at next level, right associativity).

(** [if (cond) { throw new Error(message); }] *)
Definition throwIf (cond : bool) (message : string) : Outcome unit :=
  if cond then Threw message else Returned tt.

(** The values a JSON column can hand to a validator.  Numbers are the
    integers. *)
#[warnings="-register-all"]
Inductive JsValue : Type :=
| JsUndefined
| JsNull
| JsBoolean (b : bool)
| JsNumber (n : Z)
| JsString (s : string)
| JsArray (elements : list JsValue)
| JsObject (properties : list (string * JsValue)).

(** [typeof v] *)
Definition typeof (v : JsValue) : string :=
  match v with
  | JsUndefined => "undefined"
  | JsNull => "object"
  | JsBoolean _ => "boolean"
  | JsNumber _ => "number"
  | JsString _ => "string"
  | JsArray _ => "object"
  | JsObject _ => "object"
  end.

(** [!v] is [negb (toBoolean v)]. *)
Definition toBoolean (v : JsValue) : bool :=
  match v with
  | JsUndefined => false
  | JsNull => false
  | JsBoolean b => b
  | JsNumber n => negb (n =? 0)
  | JsString EmptyString => false
  | JsString _ => true
  | JsArray _ => true
  | JsObject _ => true
  end.

(** [v < 0] *)
Definition isNegative (v : JsValue) : bool :=
  match v with
  | JsNumber n => n <? 0
  | _ => false
  end.

Fixpoint lookupProperty (key : string) (properties : list (string * JsValue))
    : JsValue :=
  match properties with
  | [] => JsUndefined
  | (k, v) :: rest =>
      if String.eqb k key then v else lookupProperty key rest
  end.

(** [v.key]: reading a property of [undefined] or [null] throws a
    TypeError, a missing property reads as [undefined]. *)
Definition getProperty (v : JsValue) (key : string) : Outcome JsValue :=
  match v with
  | JsUndefined => Threw "TypeError: Cannot read properties of undefined"
  | JsNull => Threw "TypeError: Cannot read properties of null"
  | JsObject properties => Returned (lookupProperty key properties)
  | _ => Returned JsUndefined
  end.

Definition entryLabel (index : nat) : string :=
  ("Entry " ++ NilZero.string_of_uint (Nat.to_uint index))%string.

(** One of the seven checks
    [typeof entry.f !== 'number' || entry.f < 0]. *)
Definition checkCounter (index : nat) (entry : JsValue) (field : string)
    : Outcome unit :=
  v <-- getProperty entry field ;;
  throwIf (negb (String.eqb (typeof v) "number") || isNegative v)
    (entryLabel index ++ ": " ++ field
       ++ " must be a non-negative number")%string.

(** The body of the [forEach] callback of [isStandingsValid]. *)
Definition checkEntry (index : nat) (entry : JsValue) : Outcome unit :=
  name <-- getProperty entry "teamName" ;;
  _ <-- throwIf (negb (toBoolean name)
                  || negb (String.eqb (typeof name) "string"))
    (entryLabel index ++ ": teamName is required and must be a string")%string ;;
  _ <-- checkCounter index entry "played" ;;
  _ <-- checkCounter index entry "won" ;;
  _ <-- checkCounter index entry "drawn" ;;
  _ <-- checkCounter index entry "lost" ;;
  _ <-- checkCounter index entry "goalsFor" ;;
  _ <-- checkCounter index entry "goalsAgainst" ;;
  checkCounter index entry "points".

Fixpoint forEachEntry (index : nat) (entries : list JsValue) : Outcome unit :=
  match entries with
  | [] => Returned tt
  | entry :: rest =>
      _ <-- checkEntry index entry ;;
      forEachEntry (S index) rest
  end.

(** The validator [isStandingsValid] of the [standings] column. *)
Definition isStandingsValid (value : JsValue) : Outcome unit :=
  match value with
  | JsArray entries => forEachEntry 0 entries
  | _ => Threw "Standings must be an array"
  end.

(** The [Match] model: the fields its score and team checks use. *)
Inductive MatchStatus : Type :=
| scheduled | in_progress | completed | cancelled | postponed.

Record Match : Type := mkMatch {
  homeTeam : string;
  awayTeam : string;
  homeScore : option Z;
  awayScore : option Z;
  status : MatchStatus
}.

Definition isInProgress (m : Match) : bool :=
  match status m with in_progress => true | _ => false end.

Definition isCompleted (m : Match) : bool :=
  match status m with completed => true | _ => false end.

(** [Match.completeMatch], up to the call of [save].  The method is
    [async]: what it throws rejects the promise it returns. *)
Definition completeMatch (homeScore awayScore : Z) (m : Match)
    : Outcome Match :=
  _ <-- throwIf (negb (isInProgress m))
          "Only in-progress matches can be completed" ;;
  _ <-- throwIf ((homeScore <? 0) || (awayScore <? 0))
          "Scores cannot be negative" ;;
  Returned (mkMatch (homeTeam m) (awayTeam m)
              (Some homeScore) (Some awayScore) completed).



(** ** A locale for plain ASCII names

    An instance of [StringBuiltins] to evaluate the model with:
    [toLowerCase] maps [A]..[Z] to [a]..[z], and [localeCompare] orders
    names alphabetically without regard to case and, between names that
    differ in case only, the lower-case letter first. *)

Definition asciiLower (c : ascii) : ascii :=
  let n := nat_of_ascii c in
  if ((65 <=? n)%nat && (n <=? 90)%nat)%bool then ascii_of_nat (n + 32) else c.

Fixpoint asciiToLowerCase (s : string) : string :=
  match s with
  | EmptyString => EmptyString
  | String c s' => String (asciiLower c) (asciiToLowerCase s')
  end.

Definition comparisonSign (c : comparison) : Z :=
  match c with Lt => -1 | Eq => 0 | Gt => 1 end.

Definition asciiLocaleCompare (a b : string) : Z :=
  match String.compare (asciiToLowerCase a) (asciiToLowerCase b) with
  | Eq => comparisonSign (String.compare b a)
  | c => comparisonSign c
  end.

(** ** Vocabulary of the specification *)

(** Under a comparator, [a] may stand in front of [b]. *)
Definition inOrder {A : Type} (comparefn : A -> A -> Z) (a b : A) : Prop :=
  comparefn a b <= 0.

(** Under a comparator, [a] and [b] compare as equal. *)
Definition tied {A : Type} (comparefn : A -> A -> Z) (a b : A) : bool :=
  comparefn a b =? 0.

(** [goalDifference == goalsFor - goalsAgainst] *)
Definition goalDifferenceInv (e : LeaderboardEntry) : Prop :=
  goalDifference e = goalsFor e - goalsAgainst e.

(** [won + drawn + lost == played] *)
Definition playedInv (e : LeaderboardEntry) : Prop :=
  won e + drawn e + lost e = played e.

(** [points == 3*won + 1*drawn] *)
Definition pointsInv (e : LeaderboardEntry) : Prop :=
  points e = 3 * won e + 1 * drawn e.

(** An entry with all its counters at zero. *)
Definition zeroed (e : LeaderboardEntry) : Prop :=
  e = zeroEntry (teamName e).

(** The entry a match counts on: the existing one, or a fresh zeroed one. *)
Definition baseEntryOf (name : string) (existing : option LeaderboardEntry)
    : LeaderboardEntry :=
  match existing with Some e => e | None => zeroEntry name end.

(** What a match with [own] goals scored and [opp] conceded adds to the
    entry [base], giving [r]. *)
Definition credited (base : LeaderboardEntry) (own opp : Z)
    (r : LeaderboardEntry) : Prop :=
  teamName r = teamName base /\
  played r = played base + 1 /\
  goalsFor r = goalsFor base + own /\
  goalsAgainst r = goalsAgainst base + opp /\
  goalDifference r = goalsFor r - goalsAgainst r /\
  (opp < own ->
     won r = won base + 1 /\ points r = points base + 3 /\
     drawn r = drawn base /\ lost r = lost base) /\
  (own = opp ->
     drawn r = drawn base + 1 /\ points r = points base + 1 /\
     won r = won base /\ lost r = lost base) /\
  (own < opp ->
     lost r = lost base + 1 /\ points r = points base /\
     won r = won base /\ drawn r = drawn base).

(** The JSON value the [standings] column holds for an entry and for a
    table. *)
Definition entryToJson (e : LeaderboardEntry) : JsValue :=
  JsObject [("teamName", JsString (teamName e));
            ("played", JsNumber (played e));
            ("won", JsNumber (won e));
            ("drawn", JsNumber (drawn e));
            ("lost", JsNumber (lost e));
            ("goalsFor", JsNumber (goalsFor e));
            ("goalsAgainst", JsNumber (goalsAgainst e));
            ("goalDifference", JsNumber (goalDifference e));
            ("points", JsNumber (points e))].

Definition standingsToJson (s : list LeaderboardEntry) : JsValue :=
  JsArray (map entryToJson s).

(** What [isStandingsValid] asks of an entry: a team name, and no negative
    counter (the goal difference may be negative). *)
Definition wellFormedEntry (e : LeaderboardEntry) : Prop :=
  teamName e <> EmptyString /\
  0 <= played e /\ 0 <= won e /\ 0 <= drawn e /\ 0 <= lost e /\
  0 <= goalsFor e /\ 0 <= goalsAgainst e /\ 0 <= points e.

Section Vocabulary.
Context `{StringBuiltins}.

(** The ranking rule: points, then goal difference, then goals for, all
    descending, then the team name ascending under [localeCompare]. *)
Definition ranksBefore (a b : LeaderboardEntry) : Prop :=
  points a > points b \/
  (points a = points b /\
   (goalDifference a > goalDifference b \/
    (goalDifference a = goalDifference b /\
     (goalsFor a > goalsFor b \/
      (goalsFor a = goalsFor b /\
       localeCompare (teamName a) (teamName b) <= 0))))).

(** The same rule with the names compared without regard to case: both
    are put in lower case first. *)
Definition ranksBeforeFolded (a b : LeaderboardEntry) : Prop :=
  points a > points b \/
  (points a = points b /\
   (goalDifference a > goalDifference b \/
    (goalDifference a = goalDifference b /\
     (goalsFor a > goalsFor b \/
      (goalsFor a = goalsFor b /\
       localeCompare (toLowerCase (teamName a)) (toLowerCase (teamName b))
         <= 0))))).

(** The key of an entry: its team name without regard to case. *)
Definition teamKey (e : LeaderboardEntry) : string :=
  toLowerCase (teamName e).

(** No two entries of the table have the same team name, case apart. *)
Definition uniqueTeams (s : list LeaderboardEntry) : Prop :=
  List.NoDup (map teamKey s).

(** The array [addOrUpdateTeam] holds before it sorts it: the entry has
    taken the place of the first entry of its team, or stands at the end. *)
Definition upserted (entry : LeaderboardEntry) (s : list LeaderboardEntry)
    : list LeaderboardEntry :=
  if 0 <=? findIndex (sameTeam (teamName entry)) s
  then <[Z.to_nat (findIndex (sameTeam (teamName entry)) s) := entry]> s
  else s ++ [entry].

(** The table [addOrUpdateTeam] leaves. *)
Definition stored (entry : LeaderboardEntry) (s : list LeaderboardEntry)
    : list LeaderboardEntry :=
  sort compareStandings (upserted entry s).

End Vocabulary.

(** ** Further members of the Leaderboard model *)

(** The getters read [this] and change nothing; they are functions of it. *)

(** Whether an optional id counts as set in a condition: [undefined],
    [null] and 0 do not. *)
Definition truthyId (id : option Z) : bool :=
  match id with
  | Some n => negb (n =? 0)
  | None => false
  end.

(** [id !== undefined && id !== null] *)
Definition presentId (id : option Z) : bool :=
  match id with
  | Some _ => true
  | None => false
  end.

(** The getter [isDivisionLeaderboard] *)
Definition isDivisionLeaderboard (this : Leaderboard) : bool :=
  negb (truthyId (tournamentId this)) && negb (truthyId (cupId this)).

(** The getter [isTournamentLeaderboard] *)
Definition isTournamentLeaderboard (this : Leaderboard) : bool :=
  presentId (tournamentId this).

(** The getter [isCupLeaderboard] *)
Definition isCupLeaderboard (this : Leaderboard) : bool :=
  presentId (cupId this).

(** The getter [getTeamCount] *)
Definition getTeamCount (this : Leaderboard) : Z :=
  Z.of_nat (length (standings this)).

(** The getter [getTopTeam] *)
Definition getTopTeam (this : Leaderboard) : option LeaderboardEntry :=
  if Z.of_nat (length (standings this)) =? 0 then None
  else standings this !! 0%nat.

(** [updateStandings], up to the assignment of [lastUpdated] and the call
    of [save]. *)
Definition updateStandings `{StringBuiltins}
    (newStandings : list LeaderboardEntry) : Method unit :=
  setStandings newStandings ;;;
  sortStandings.

(** The model validator [eitherTournamentOrCup] of [Leaderboard]. *)
Definition eitherTournamentOrCup (this : Leaderboard) : Outcome unit :=
  throwIf (truthyId (tournamentId this) && truthyId (cupId this))
    "Leaderboard cannot belong to both tournament and cup".

(** ** Further members of the Match model *)

(** The values of the getter [winner]: ['home'], ['away'], ['draw']. *)
Inductive MatchSide : Type :=
| Home | Away | Draw.


(** The getter [hasResult]: both scores are defined ([None] is
    [undefined]). *)
Definition hasResult (m : Match) : bool :=
  presentId (homeScore m) && presentId (awayScore m).

(** The getter [winner]; [null] is [None]. *)
Definition winner (m : Match) : option MatchSide :=
  if negb (hasResult m) || negb (isCompleted m) then None
  else
    match homeScore m, awayScore m with
    | Some h, Some a =>
        if h >? a then Some Home
        else if a >? h then Some Away
        else Some Draw
    | _, _ => None
    end.

(** The getter [loser] *)
Definition loser (m : Match) : option MatchSide :=
  match winner m with
  | Some Home => Some Away
  | Some Away => Some Home
  | _ => None
  end.

(** The getter [isDraw] *)
Definition isDraw (m : Match) : bool :=
  match winner m with
  | Some Draw => true
  | _ => false
  end.






(** ** Further vocabulary *)

(** The sum of a counter over the table. *)
Definition total (f : LeaderboardEntry -> Z) (s : list LeaderboardEntry) : Z :=
  fold_right Z.add 0 (map f s).


(** The first thing [isStandingsValid] finds wrong with an entry, by the
    name of the field, in the order of its checks. *)
Definition firstBadField (e : LeaderboardEntry) : option string :=
  match teamName e with
  | EmptyString => Some "teamName"
  | _ =>
      if played e <? 0 then Some "played"
      else if won e <? 0 then Some "won"
      else if drawn e <? 0 then Some "drawn"
      else if lost e <? 0 then Some "lost"
      else if goalsFor e <? 0 then Some "goalsFor"
      else if goalsAgainst e <? 0 then Some "goalsAgainst"
      else if points e <? 0 then Some "points"
      else None
  end.

(** What a team's share of a match does to the lookup of a name: the
    lookup of the team, however the name is cased, returns the entry built
    from what it returned before; every other lookup is as before. *)
Definition lookupAfter `{StringBuiltins} (name team : string)
    (isHome : bool) (hs as_ : Z) (before : option LeaderboardEntry)
    : option LeaderboardEntry :=
  if String.eqb (toLowerCase name) (toLowerCase team)
  then Some (createEntryFromMatch team before isHome hs as_)
  else before.

(** The message [isStandingsValid] throws for a field of the entry at
    [index]. *)
Definition fieldMessage (index : nat) (field : string) : string :=
  if String.eqb field "teamName"
  then (entryLabel index ++ ": teamName is required and must be a string")%string
  else (entryLabel index ++ ": " ++ field
          ++ " must be a non-negative number")%string.

(** * Properties *)

(** ** The ASCII locale is a locale *)

Lemma string_compare_refl (x : string) : String.compare x x = Eq.
Proof. apply String_as_OT.cmp_eq. reflexivity. Qed.

Lemma string_compare_not_Gt_trans (x y z : string) :
  String.compare x y <> Gt -> String.compare y z <> Gt ->
  String.compare x z <> Gt.
Proof.
  intros Hxy Hyz.
  destruct (String.compare x y) eqn:Exy; [| | congruence].
  - apply String_as_OT.cmp_eq in Exy. subst y. exact Hyz.
  - destruct (String.compare y z) eqn:Eyz; [| | congruence].
    + apply String_as_OT.cmp_eq in Eyz. subst z. rewrite Exy. discriminate.
    + apply String_as_OT.cmp_lt in Exy. apply String_as_OT.cmp_lt in Eyz.
      pose proof (String_as_OT.lt_trans _ _ _ Exy Eyz) as Hxz.
      apply String_as_OT.cmp_lt in Hxz. unfold String_as_OT.cmp in Hxz.
      rewrite Hxz. discriminate.
Qed.

Lemma asciiLocaleCompare_antisym (a b : string) :
  Z.sgn (asciiLocaleCompare b a) = - Z.sgn (asciiLocaleCompare a b).
Proof.
  unfold asciiLocaleCompare.
  rewrite (String.compare_antisym (asciiToLowerCase a) (asciiToLowerCase b)).
  rewrite (String.compare_antisym b a).
  destruct (String.compare (asciiToLowerCase b) (asciiToLowerCase a));
    simpl; try reflexivity.
  destruct (String.compare a b); reflexivity.
Qed.

Lemma asciiLocaleCompare_le_iff (a b : string) :
  asciiLocaleCompare a b <= 0 <->
  (String.compare (asciiToLowerCase a) (asciiToLowerCase b) = Lt \/
   (asciiToLowerCase a = asciiToLowerCase b /\ String.compare b a <> Gt)).
Proof.
  unfold asciiLocaleCompare.
  destruct (String.compare (asciiToLowerCase a) (asciiToLowerCase b)) eqn:E.
  - apply String_as_OT.cmp_eq in E.
    destruct (String.compare b a); simpl; split; intros Hle;
      try (right; split; [exact E | discriminate]); try lia.
    destruct Hle as [Hlt | [_ Hgt]]; congruence.
  - simpl. split; [intros _; left; reflexivity | lia].
  - simpl. split; [lia |].
    intros [Hlt | [Heq _]]; [discriminate |].
    rewrite Heq, string_compare_refl in E. discriminate.
Qed.

Lemma asciiLocaleCompare_trans (a b c : string) :
  asciiLocaleCompare a b <= 0 -> asciiLocaleCompare b c <= 0 ->
  asciiLocaleCompare a c <= 0.
Proof.
  rewrite !asciiLocaleCompare_le_iff.
  intros [Hab | [Hab Hba]] [Hbc | [Hbc Hcb]].
  - left.
    apply String_as_OT.cmp_lt. apply String_as_OT.cmp_lt in Hab.
    apply String_as_OT.cmp_lt in Hbc.
    exact (String_as_OT.lt_trans _ _ _ Hab Hbc).
  - left. rewrite <- Hbc. exact Hab.
  - left. rewrite Hab. exact Hbc.
  - right. split; [congruence |].
    exact (string_compare_not_Gt_trans c b a Hcb Hba).
Qed.

(** Names that compare as equal in the ASCII locale are the same name. *)
Lemma asciiLocaleCompare_eq0 (a b : string) :
  asciiLocaleCompare a b = 0 -> a = b.
Proof.
  unfold asciiLocaleCompare.
  destruct (String.compare (asciiToLowerCase a) (asciiToLowerCase b));
    simpl; try discriminate.
  destruct (String.compare b a) eqn:E; simpl; try discriminate.
  intros _. apply String_as_OT.cmp_eq in E. congruence.
Qed.

Lemma asciiLower_idempotent (c : ascii) :
  asciiLower (asciiLower c) = asciiLower c.
Proof. destruct c as [[] [] [] [] [] [] [] []]; reflexivity. Qed.

Lemma asciiToLowerCase_idempotent (s : string) :
  asciiToLowerCase (asciiToLowerCase s) = asciiToLowerCase s.
Proof.
  induction s as [| c s IH]; simpl; [reflexivity |].
  rewrite asciiLower_idempotent, IH. reflexivity.
Qed.

(** In the ASCII locale case only breaks ties. *)
Lemma asciiLocaleCompare_fold (a b : string) :
  asciiLocaleCompare a b <= 0 ->
  asciiLocaleCompare (asciiToLowerCase a) (asciiToLowerCase b) <= 0.
Proof.
  rewrite !asciiLocaleCompare_le_iff, !asciiToLowerCase_idempotent.
  intros [Hlt | [Heq _]]; [left; exact Hlt | right].
  split; [exact Heq |]. rewrite Heq, string_compare_refl. discriminate.
Qed.

#[export] Instance asciiStrings : StringBuiltins := {|
  toLowerCase := asciiToLowerCase;
  localeCompare := asciiLocaleCompare;
  localeCompare_antisym := asciiLocaleCompare_antisym;
  localeCompare_trans := asciiLocaleCompare_trans
|}.

(** ** Facts about the array built-ins *)

Section ArrayFacts.
Context {A : Type}.

Lemma findIndexFrom_none (p : A -> bool) (l : list A) (k : Z) :
  0 <= k -> Forall (fun x => p x = false) l -> findIndexFrom k p l = -1.
Proof.
  intros Hk Hall. revert k Hk.
  induction Hall as [| x l Hx _ IH]; intros k Hk; simpl.
  - reflexivity.
  - rewrite Hx. apply IH. lia.
Qed.

Lemma findIndexFrom_some (p : A -> bool) (l1 l2 : list A) (x : A) (k : Z) :
  Forall (fun y => p y = false) l1 -> p x = true ->
  findIndexFrom k p (l1 ++ x :: l2) = k + Z.of_nat (length l1).
Proof.
  intros Hall Hx. revert k.
  induction Hall as [| y l Hy _ IH]; intros k; simpl.
  - rewrite Hx. lia.
  - rewrite Hy, IH. lia.
Qed.

(** A list either has no element satisfying [p] or splits at the first. *)
Lemma first_match_split (p : A -> bool) (l : list A) :
  Forall (fun x => p x = false) l \/
  exists l1 x l2,
    l = l1 ++ x :: l2 /\ Forall (fun y => p y = false) l1 /\ p x = true.
Proof.
  induction l as [| y l IH].
  - left. constructor.
  - destruct (p y) eqn:Ey.
    + right. exists [], y, l. repeat split; [constructor | exact Ey].
    + destruct IH as [Hall | (l1 & x & l2 & -> & Hall & Hx)].
      * left. constructor; assumption.
      * right. exists (y :: l1), x, l2.
        repeat split; [constructor; assumption | exact Hx].
Qed.

Lemma find_none_Forall (p : A -> bool) (l : list A) :
  Forall (fun x => p x = false) l -> find p l = None.
Proof.
  induction 1 as [| x l Hx _ IH]; simpl; [reflexivity |].
  rewrite Hx. exact IH.
Qed.

Lemma find_first_match (p : A -> bool) (l1 l2 : list A) (x : A) :
  Forall (fun y => p y = false) l1 -> p x = true ->
  find p (l1 ++ x :: l2) = Some x.
Proof.
  induction 1 as [| y l Hy _ IH]; intros Hx; simpl.
  - rewrite Hx. reflexivity.
  - rewrite Hy. apply IH, Hx.
Qed.

Lemma find_head_filter (p : A -> bool) (l : list A) :
  find p l = head (List.filter p l).
Proof.
  induction l as [| x l IH]; simpl; [reflexivity |].
  destruct (p x); [reflexivity | exact IH].
Qed.

Lemma slice_from_zero (count : Z) (l : list A) :
  slice 0 count l =
  firstn (Z.to_nat (if count <? 0 then Z.of_nat (length l) + count
                    else count)) l.
Proof.
  unfold slice, relativeIndex. simpl (0 <? 0).
  rewrite (Z.min_l 0) by lia. change (Z.to_nat 0) with 0%nat.
  rewrite skipn_O, Z.sub_0_r.
  destruct (count <? 0) eqn:E.
  - f_equal. lia.
  - apply Z.ltb_ge in E.
    destruct (Z.le_gt_cases count (Z.of_nat (length l))) as [Hle | Hgt].
    + rewrite Z.min_l by lia. reflexivity.
    + rewrite Z.min_r by lia. rewrite Nat2Z.id.
      rewrite firstn_all. symmetry. apply firstn_all2. lia.
Qed.

Lemma splice_one (l1 l2 : list A) (x : A) :
  splice (Z.of_nat (length l1)) 1 (l1 ++ x :: l2) = l1 ++ l2.
Proof.
  unfold splice, relativeIndex.
  assert (Hlen : Z.of_nat (length (l1 ++ x :: l2))
                 = Z.of_nat (length l1) + 1 + Z.of_nat (length l2)).
  { rewrite length_app. simpl. lia. }
  rewrite Hlen.
  destruct (Z.of_nat (length l1) <? 0) eqn:E; [apply Z.ltb_lt in E; lia |].
  rewrite Z.min_l by lia. rewrite Z.max_l by lia. rewrite Z.min_l by lia.
  rewrite Nat2Z.id.
  replace (Z.to_nat (Z.of_nat (length l1) + 1)) with (length l1 + 1)%nat by lia.
  rewrite firstn_app, Nat.sub_diag, firstn_all. simpl. rewrite app_nil_r.
  f_equal.
  rewrite skipn_app, skipn_all2 by lia. simpl.
  replace (length l1 + 1 - length l1)%nat with 1%nat by lia. reflexivity.
Qed.

End ArrayFacts.

(** ** Facts about the sort *)

Section SortFacts.
Context {A : Type} (comparefn : A -> A -> Z).

Lemma sortInsert_Permutation (x : A) (l : list A) :
  Permutation (x :: l) (sortInsert comparefn x l).
Proof.
  induction l as [| y l IH]; simpl.
  - apply Permutation_refl.
  - destruct (comparefn x y <=? 0).
    + apply Permutation_refl.
    + eapply perm_trans; [apply perm_swap |].
      apply perm_skip. exact IH.
Qed.

Lemma sort_Permutation (l : list A) : Permutation l (sort comparefn l).
Proof.
  induction l as [| x l IH]; simpl.
  - apply perm_nil.
  - eapply perm_trans; [apply perm_skip, IH |].
    apply sortInsert_Permutation.
Qed.

Lemma sort_length (l : list A) : length (sort comparefn l) = length l.
Proof. symmetry. apply Permutation_length, sort_Permutation. Qed.

Lemma sort_In (x : A) (l : list A) : In x (sort comparefn l) <-> In x l.
Proof.
  split; apply Permutation_in;
    [apply Permutation_sym |]; apply sort_Permutation.
Qed.

Lemma sort_Forall (P : A -> Prop) (l : list A) :
  Forall P l -> Forall P (sort comparefn l).
Proof.
  rewrite !List.Forall_forall. intros Hall x Hx. apply Hall, sort_In, Hx.
Qed.

Lemma sort_filter (p : A -> bool) (l : list A) :
  Permutation (List.filter p l) (List.filter p (sort comparefn l)).
Proof.
  pose proof (sort_Permutation l) as Hperm.
  induction Hperm as [| x l1 l2 _ IH | x y l1 | l1 l2 l3 _ IH1 _ IH2]; simpl.
  - apply perm_nil.
  - destruct (p x); [apply perm_skip |]; exact IH.
  - destruct (p x), (p y); try apply Permutation_refl. apply perm_swap.
  - eapply perm_trans; eassumption.
Qed.

(** A list that is in order already is left as it is: the sort is stable
    and moves nothing that does not have to move. *)
Lemma sort_of_Sorted (l : list A) :
  Sorted (inOrder comparefn) l -> sort comparefn l = l.
Proof.
  induction 1 as [| x l _ IH Hhd]; simpl; [reflexivity |].
  rewrite IH. destruct Hhd as [| y l Hxy]; simpl; [reflexivity |].
  unfold inOrder in Hxy. apply Z.leb_le in Hxy. rewrite Hxy. reflexivity.
Qed.

Section Consistent.
Hypothesis comparefn_total :
  forall a b, 0 < comparefn a b -> comparefn b a <= 0.

Lemma sortInsert_Sorted (x : A) (l : list A) :
  Sorted (inOrder comparefn) l ->
  Sorted (inOrder comparefn) (sortInsert comparefn x l).
Proof.
  induction 1 as [| y l Hl IH Hhd]; simpl.
  - repeat constructor.
  - destruct (comparefn x y <=? 0) eqn:E.
    + apply Z.leb_le in E. repeat constructor; assumption.
    + apply Z.leb_gt in E. constructor; [exact IH |].
      destruct Hhd as [| z l Hyz]; simpl.
      * constructor. apply comparefn_total, E.
      * destruct (comparefn x z <=? 0); constructor;
          [apply comparefn_total, E | exact Hyz].
Qed.

Lemma sort_Sorted (l : list A) : Sorted (inOrder comparefn) (sort comparefn l).
Proof.
  induction l as [| x l IH]; simpl; [constructor |].
  apply sortInsert_Sorted, IH.
Qed.

Lemma sort_idempotent (l : list A) :
  sort comparefn (sort comparefn l) = sort comparefn l.
Proof. apply sort_of_Sorted, sort_Sorted. Qed.

Hypothesis comparefn_trans :
  forall a b c, comparefn a b <= 0 -> comparefn b c <= 0 -> comparefn a c <= 0.

Lemma sort_StronglySorted (l : list A) :
  StronglySorted (inOrder comparefn) (sort comparefn l).
Proof.
  apply Sorted_StronglySorted; [| apply sort_Sorted].
  intros a b c. apply comparefn_trans.
Qed.

(** Two arrangements of the same elements that are both in order are the
    same list, when elements that may stand either way round are equal. *)
Lemma StronglySorted_Permutation_eq (l l' : list A) :
  (forall a b, In a l -> In b l ->
     comparefn a b <= 0 -> comparefn b a <= 0 -> a = b) ->
  StronglySorted (inOrder comparefn) l -> StronglySorted (inOrder comparefn) l' ->
  Permutation l l' -> l = l'.
Proof.
  intros Hanti Hs. revert l' Hanti.
  induction Hs as [| x l Hl IH Hx]; intros l' Hanti Hs' Hperm.
  - apply Permutation_nil in Hperm. congruence.
  - destruct Hs' as [| y l' Hl' Hy].
    + apply Permutation_sym, Permutation_nil in Hperm. discriminate.
    + assert (Hxy : x = y).
      { assert (Hin_x : In x (y :: l'))
          by (eapply Permutation_in; [exact Hperm | left; reflexivity]).
        assert (Hin_y : In y (x :: l))
          by (eapply Permutation_in;
              [apply Permutation_sym, Hperm | left; reflexivity]).
        destruct Hin_x as [-> | Hin_x]; [reflexivity |].
        destruct Hin_y as [-> | Hin_y]; [reflexivity |].
        rewrite List.Forall_forall in Hx, Hy.
        apply Hanti; [left; reflexivity | right; exact Hin_y | |].
        - apply Hx, Hin_y.
        - apply Hy, Hin_x. }
      subst y. f_equal.
      apply IH; [| exact Hl' | eapply Permutation_cons_inv, Hperm].
      intros a b Ha Hb. apply Hanti; right; assumption.
Qed.


End Consistent.

(** *** The sort is the stable sort

    For a consistent comparator the model does not depend on the sorting
    algorithm: [sort] keeps the elements that compare as equal in the order
    they had, and a list in order that does so is the list [sort] returns. *)

Section Stable.
Hypothesis comparefn_antisym :
  forall a b, Z.sgn (comparefn b a) = - Z.sgn (comparefn a b).
Hypothesis comparefn_trans :
  forall a b c, comparefn a b <= 0 -> comparefn b c <= 0 -> comparefn a c <= 0.

Lemma tied_refl (a : A) : tied comparefn a a = true.
Proof.
  unfold tied. apply Z.eqb_eq.
  pose proof (comparefn_antisym a a) as Hs.
  destruct (comparefn a a); simpl in Hs; [reflexivity | |]; discriminate.
Qed.

Lemma tied_sym (a b : A) : tied comparefn a b = tied comparefn b a.
Proof.
  unfold tied. pose proof (comparefn_antisym a b) as Hs.
  destruct (comparefn a b), (comparefn b a); simpl in Hs;
    try reflexivity; discriminate.
Qed.

Lemma tied_of_both (a b : A) :
  comparefn a b <= 0 -> comparefn b a <= 0 -> tied comparefn a b = true.
Proof.
  intros Hab Hba. unfold tied. apply Z.eqb_eq.
  pose proof (comparefn_antisym a b) as Hs.
  destruct (comparefn a b), (comparefn b a); simpl in Hs;
    try reflexivity; try discriminate; lia.
Qed.

Lemma tied_not_after (x y z : A) :
  tied comparefn x y = true -> tied comparefn x z = true ->
  comparefn y z <= 0.
Proof.
  intros Hxy Hxz. rewrite tied_sym in Hxy.
  unfold tied in *. apply Z.eqb_eq in Hxy. apply Z.eqb_eq in Hxz.
  apply (comparefn_trans y x z); lia.
Qed.

Lemma sortInsert_stable (x y : A) (l : list A) :
  List.filter (tied comparefn x) (sortInsert comparefn y l)
  = List.filter (tied comparefn x) (y :: l).
Proof.
  induction l as [| z l IH]; [reflexivity |].
  cbn [sortInsert].
  destruct (comparefn y z <=? 0) eqn:E; [reflexivity |].
  apply Z.leb_gt in E.
  cbn [List.filter] in *. rewrite IH.
  destruct (tied comparefn x y) eqn:Exy, (tied comparefn x z) eqn:Exz;
    try reflexivity.
  pose proof (tied_not_after x y z Exy Exz). lia.
Qed.

Lemma sort_stable (x : A) (l : list A) :
  List.filter (tied comparefn x) (sort comparefn l)
  = List.filter (tied comparefn x) l.
Proof.
  induction l as [| y l IH]; [reflexivity |].
  cbn [sort]. rewrite sortInsert_stable. cbn [List.filter].
  rewrite IH. reflexivity.
Qed.

Lemma stable_sorted_unique (l1 l2 : list A) :
  StronglySorted (inOrder comparefn) l1 ->
  StronglySorted (inOrder comparefn) l2 ->
  (forall x, List.filter (tied comparefn x) l1
             = List.filter (tied comparefn x) l2) ->
  l1 = l2.
Proof.
  intros Hs1. revert l2.
  induction Hs1 as [| a t1 Ht1 IH Ha]; intros l2 Hs2 Hsame.
  - destruct l2 as [| b t2]; [reflexivity |].
    specialize (Hsame b). cbn [List.filter] in Hsame.
    rewrite tied_refl in Hsame. discriminate.
  - destruct Hs2 as [| b t2 Ht2 Hb].
    + specialize (Hsame a). cbn [List.filter] in Hsame.
      rewrite tied_refl in Hsame. discriminate.
    + assert (Hab : a = b).
      { pose proof (Hsame a) as Hat. pose proof (Hsame b) as Hbt.
        cbn [List.filter] in Hat, Hbt.
        rewrite tied_refl in Hat, Hbt. rewrite (tied_sym b a) in Hbt.
        destruct (tied comparefn a b) eqn:E; [congruence |].
        exfalso.
        assert (Hin_a : In a t2).
        { assert (Hin : In a (List.filter (tied comparefn a) t2))
            by (rewrite <- Hat; left; reflexivity).
          apply List.filter_In in Hin. apply Hin. }
        assert (Hin_b : In b t1).
        { assert (Hin : In b (List.filter (tied comparefn b) t1))
            by (rewrite Hbt; left; reflexivity).
          apply List.filter_In in Hin. apply Hin. }
        rewrite List.Forall_forall in Ha, Hb.
        rewrite (tied_of_both a b (Ha b Hin_b) (Hb a Hin_a)) in E.
        discriminate. }
      subst b. f_equal. apply IH; [exact Ht2 |].
      intros x. specialize (Hsame x). cbn [List.filter] in Hsame.
      destruct (tied comparefn x a); congruence.
Qed.

(** Every arrangement of [l] that is in order and keeps tied elements in
    the order they have in [l] is [sort comparefn l]. *)
Lemma sort_is_the_stable_sort (l l' : list A) :
  StronglySorted (inOrder comparefn) l' ->
  (forall x, List.filter (tied comparefn x) l'
             = List.filter (tied comparefn x) l) ->
  l' = sort comparefn l.
Proof.
  intros Hs Hsame. apply stable_sorted_unique; [exact Hs | |].
  - apply sort_StronglySorted; [| exact comparefn_trans].
    intros a b Hpos. pose proof (comparefn_antisym a b) as Hsg.
    destruct (comparefn a b), (comparefn b a); simpl in Hsg;
      try discriminate; lia.
  - intros x. rewrite sort_stable. apply Hsame.
Qed.

End Stable.

End SortFacts.

(** ** The comparator of sortStandings *)

Lemma sgn_flip (x y : Z) :
  Z.sgn y = - Z.sgn x -> (0 < x <-> y < 0) /\ (x = 0 <-> y = 0).
Proof. destruct x, y; simpl; intros Hs; try discriminate; lia. Qed.

Section Comparator.
Context `{StringBuiltins}.

Lemma localeCompare_refl (a : string) : localeCompare a a = 0.
Proof.
  pose proof (localeCompare_antisym a a) as Hs.
  destruct (localeCompare a a); simpl in Hs; [reflexivity | |]; discriminate.
Qed.

Lemma compareStandings_le_iff (a b : LeaderboardEntry) :
  compareStandings a b <= 0 <-> ranksBefore a b.
Proof.
  unfold compareStandings, ranksBefore.
  destruct (points b =? points a) eqn:Ep; simpl;
    [apply Z.eqb_eq in Ep | apply Z.eqb_neq in Ep; lia].
  destruct (goalDifference b =? goalDifference a) eqn:Ed; simpl;
    [apply Z.eqb_eq in Ed | apply Z.eqb_neq in Ed; lia].
  destruct (goalsFor b =? goalsFor a) eqn:Eg; simpl;
    [apply Z.eqb_eq in Eg | apply Z.eqb_neq in Eg; lia].
  split; [intros Hle; right; split; [lia |]; right; split; [lia |];
          right; split; [lia | exact Hle] |].
  intros [Hp | [_ [Hd | [_ [Hg | [_ Hn]]]]]]; lia.
Qed.

(** The comparator is consistent: swapping the arguments flips the sign... *)
Lemma compareStandings_antisym (a b : LeaderboardEntry) :
  Z.sgn (compareStandings b a) = - Z.sgn (compareStandings a b).
Proof.
  unfold compareStandings.
  rewrite (Z.eqb_sym (points a)), (Z.eqb_sym (goalDifference a)),
    (Z.eqb_sym (goalsFor a)).
  destruct (points b =? points a); simpl;
    [| rewrite <- Z.sgn_opp; f_equal; lia].
  destruct (goalDifference b =? goalDifference a); simpl;
    [| rewrite <- Z.sgn_opp; f_equal; lia].
  destruct (goalsFor b =? goalsFor a); simpl;
    [| rewrite <- Z.sgn_opp; f_equal; lia].
  apply localeCompare_antisym.
Qed.

(** ... and being in order is transitive. *)
Lemma compareStandings_trans (a b c : LeaderboardEntry) :
  compareStandings a b <= 0 -> compareStandings b c <= 0 ->
  compareStandings a c <= 0.
Proof.
  rewrite !compareStandings_le_iff. unfold ranksBefore.
  intros [Hp1 | [Hp1 [Hd1 | [Hd1 [Hg1 | [Hg1 Hn1]]]]]]
         [Hp2 | [Hp2 [Hd2 | [Hd2 [Hg2 | [Hg2 Hn2]]]]]];
    try (left; lia);
    right; (split; [lia |]);
    try (left; lia);
    right; (split; [lia |]);
    try (left; lia);
    right; (split; [lia |]).
  eapply localeCompare_trans; eassumption.
Qed.

Lemma compareStandings_total (a b : LeaderboardEntry) :
  0 < compareStandings a b -> compareStandings b a <= 0.
Proof.
  intros Hpos.
  destruct (sgn_flip _ _ (compareStandings_antisym a b)) as [Hflip _].
  apply Hflip in Hpos. lia.
Qed.

Lemma compareStandings_both (a b : LeaderboardEntry) :
  compareStandings a b <= 0 -> compareStandings b a <= 0 ->
  compareStandings a b = 0.
Proof.
  intros Hab Hba.
  destruct (sgn_flip _ _ (compareStandings_antisym b a)) as [Hflip _].
  destruct (Z.eq_dec (compareStandings a b) 0) as [E | E]; [exact E |].
  assert (Hlt : compareStandings a b < 0) by lia.
  apply Hflip in Hlt. lia.
Qed.

(** Entries that compare as equal agree on the three numbers, and their
    names compare as equal. *)
Lemma compareStandings_zero (a b : LeaderboardEntry) :
  compareStandings a b = 0 ->
  points a = points b /\ goalDifference a = goalDifference b /\
  goalsFor a = goalsFor b /\ localeCompare (teamName a) (teamName b) = 0.
Proof.
  unfold compareStandings.
  destruct (points b =? points a) eqn:Ep; simpl;
    [apply Z.eqb_eq in Ep | apply Z.eqb_neq in Ep; lia].
  destruct (goalDifference b =? goalDifference a) eqn:Ed; simpl;
    [apply Z.eqb_eq in Ed | apply Z.eqb_neq in Ed; lia].
  destruct (goalsFor b =? goalsFor a) eqn:Eg; simpl;
    [apply Z.eqb_eq in Eg | apply Z.eqb_neq in Eg; lia].
  intros Hn. repeat split; congruence.
Qed.

End Comparator.

(** ** The methods on the standings *)

Section MethodFacts.
Context `{StringBuiltins}.

Lemma sameTeam_iff (name : string) (e : LeaderboardEntry) :
  sameTeam name e = true <-> teamKey e = toLowerCase name.
Proof. unfold sameTeam, teamKey. apply String.eqb_eq. Qed.

Lemma sameTeam_false_iff (name : string) (e : LeaderboardEntry) :
  sameTeam name e = false <-> teamKey e <> toLowerCase name.
Proof. unfold sameTeam, teamKey. apply String.eqb_neq. Qed.

Lemma sameTeam_key (n1 n2 : string) (e : LeaderboardEntry) :
  toLowerCase n1 = toLowerCase n2 -> sameTeam n1 e = sameTeam n2 e.
Proof. unfold sameTeam. intros ->. reflexivity. Qed.

Lemma sameTeam_self (e : LeaderboardEntry) : sameTeam (teamName e) e = true.
Proof. apply sameTeam_iff. reflexivity. Qed.

Lemma standings_sortStandings (this : Leaderboard) :
  standings (exec sortStandings this) = sort compareStandings (standings this).
Proof. reflexivity. Qed.

Lemma result_getTeamStanding (name : string) (this : Leaderboard) :
  result (getTeamStanding name) this = find (sameTeam name) (standings this).
Proof. reflexivity. Qed.

Lemma standings_addOrUpdateTeam (entry : LeaderboardEntry)
    (this : Leaderboard) :
  standings (exec (addOrUpdateTeam entry) this)
  = sort compareStandings (upserted entry (standings this)).
Proof.
  unfold addOrUpdateTeam, upserted, exec, bind, getStandings. simpl.
  destruct (0 <=? findIndex (sameTeam (teamName entry)) (standings this));
    reflexivity.
Qed.

Lemma upserted_append (entry : LeaderboardEntry) (s : list LeaderboardEntry) :
  Forall (fun e => sameTeam (teamName entry) e = false) s ->
  upserted entry s = s ++ [entry].
Proof.
  intros Hall. unfold upserted, findIndex.
  rewrite findIndexFrom_none by (lia || assumption). reflexivity.
Qed.

Lemma upserted_replace (entry x : LeaderboardEntry)
    (l1 l2 : list LeaderboardEntry) :
  Forall (fun e => sameTeam (teamName entry) e = false) l1 ->
  sameTeam (teamName entry) x = true ->
  upserted entry (l1 ++ x :: l2) = l1 ++ entry :: l2.
Proof.
  intros Hall Hx. unfold upserted, findIndex.
  rewrite (findIndexFrom_some _ _ _ _ _ Hall Hx).
  destruct (0 <=? 0 + Z.of_nat (length l1)) eqn:E;
    [| apply Z.leb_gt in E; lia].
  replace (Z.to_nat (0 + Z.of_nat (length l1)))
    with (length l1 + 0)%nat by lia.
  rewrite insert_app_r. reflexivity.
Qed.

(** [upserted] by cases: the first entry of the same team is replaced, or
    the entry is appended. *)
Lemma upserted_cases (entry : LeaderboardEntry) (s : list LeaderboardEntry) :
  (Forall (fun e => sameTeam (teamName entry) e = false) s /\
   upserted entry s = s ++ [entry]) \/
  (exists l1 x l2,
     s = l1 ++ x :: l2 /\
     Forall (fun e => sameTeam (teamName entry) e = false) l1 /\
     sameTeam (teamName entry) x = true /\
     upserted entry s = l1 ++ entry :: l2).
Proof.
  destruct (first_match_split (sameTeam (teamName entry)) s)
    as [Hall | (l1 & x & l2 & -> & Hall & Hx)].
  - left. split; [exact Hall | apply upserted_append, Hall].
  - right. exists l1, x, l2. repeat split; try assumption.
    apply upserted_replace; assumption.
Qed.

(** When [existingEntry] is the object the table holds for the team,
    [createEntryFromMatch] has updated the table in place before
    [addOrUpdateTeam] is called with the object: the array then is
    [upserted entry s] already.  [addOrUpdateTeam] makes the same table of
    it as of the array [s] with the value the object had before. *)
Lemma upserted_in_place (entry : LeaderboardEntry)
    (s : list LeaderboardEntry) :
  upserted entry (upserted entry s) = upserted entry s.
Proof.
  destruct (upserted_cases entry s)
    as [[Hall ->] | (l1 & x & l2 & -> & Hall & Hx & ->)].
  - change [entry] with ([] ++ [entry]) at 2.
    apply (upserted_replace entry entry s []); [exact Hall |].
    apply sameTeam_self.
  - apply upserted_replace; [exact Hall | apply sameTeam_self].
Qed.

Lemma addOrUpdateTeam_in_place (entry : LeaderboardEntry)
    (this : Leaderboard) :
  exec (addOrUpdateTeam entry)
    (exec (setStandings (upserted entry (standings this))) this)
  = exec (addOrUpdateTeam entry) this.
Proof.
  assert (Hexec : forall t : Leaderboard,
            exec (addOrUpdateTeam entry) t
            = exec (setStandings
                      (sort compareStandings (upserted entry (standings t))))
                t).
  { intros t. unfold addOrUpdateTeam, upserted, exec, bind, getStandings.
    simpl.
    destruct (0 <=? findIndex (sameTeam (teamName entry)) (standings t));
      reflexivity. }
  rewrite !Hexec. unfold exec, setStandings. simpl.
  rewrite upserted_in_place. reflexivity.
Qed.

End MethodFacts.

(** ** createEntryFromMatch *)

Lemma createEntryFromMatch_credited (name : string)
    (existing : option LeaderboardEntry) (isHome : bool) (hs as_ : Z) :
  credited (baseEntryOf name existing)
    (if isHome then hs else as_) (if isHome then as_ else hs)
    (createEntryFromMatch name existing isHome hs as_).
Proof.
  unfold createEntryFromMatch, credited, baseEntryOf.
  set (base := match existing with Some e => e | None => zeroEntry name end).
  set (own := if isHome then hs else as_).
  set (opp := if isHome then as_ else hs).
  destruct (Z.gtb_spec own opp) as [Hgt | Hle]; simpl.
  - repeat split; intros; lia.
  - destruct (Z.eqb_spec own opp) as [Heq | Hne]; simpl;
      repeat split; intros; lia.
Qed.

Lemma createEntryFromMatch_teamName (name : string)
    (existing : option LeaderboardEntry) (isHome : bool) (hs as_ : Z) :
  teamName (createEntryFromMatch name existing isHome hs as_)
  = teamName (baseEntryOf name existing).
Proof. apply createEntryFromMatch_credited. Qed.

Lemma createEntryFromMatch_goalDifference (name : string)
    (existing : option LeaderboardEntry) (isHome : bool) (hs as_ : Z) :
  goalDifferenceInv (createEntryFromMatch name existing isHome hs as_).
Proof.
  unfold createEntryFromMatch, goalDifferenceInv.
  destruct (_ >? _); [| destruct (_ =? _)]; reflexivity.
Qed.

Lemma createEntryFromMatch_played (name : string)
    (existing : option LeaderboardEntry) (isHome : bool) (hs as_ : Z) :
  playedInv (baseEntryOf name existing) ->
  playedInv (createEntryFromMatch name existing isHome hs as_).
Proof.
  unfold createEntryFromMatch, playedInv, baseEntryOf.
  destruct (_ >? _); [| destruct (_ =? _)]; simpl; lia.
Qed.

Lemma createEntryFromMatch_points (name : string)
    (existing : option LeaderboardEntry) (isHome : bool) (hs as_ : Z) :
  pointsInv (baseEntryOf name existing) ->
  pointsInv (createEntryFromMatch name existing isHome hs as_).
Proof.
  unfold createEntryFromMatch, pointsInv, baseEntryOf.
  destruct (_ >? _); [| destruct (_ =? _)]; simpl; lia.
Qed.

(** ** Tables with one entry per team *)

Section Tables.
Context `{StringBuiltins}.

Lemma exec_bind {R S : Type} (m : Method R) (k : R -> Method S)
    (this : Leaderboard) :
  exec (bind m k) this = exec (k (result m this)) (exec m this).
Proof. unfold exec, result, bind. destruct (m this). reflexivity. Qed.

Lemma result_bind {R S : Type} (m : Method R) (k : R -> Method S)
    (this : Leaderboard) :
  result (bind m k) this = result (k (result m this)) (exec m this).
Proof. unfold exec, result, bind. destruct (m this). reflexivity. Qed.

Lemma find_unique (name : string) (x : LeaderboardEntry)
    (s : list LeaderboardEntry) :
  uniqueTeams s -> In x s -> sameTeam name x = true ->
  find (sameTeam name) s = Some x.
Proof.
  unfold uniqueTeams. intros Hnd Hin Hx.
  induction s as [| y s IH]; simpl in *; [contradiction |].
  inversion Hnd as [| k ks Hnotin Hnd']; subst.
  destruct Hin as [-> | Hin].
  - rewrite Hx. reflexivity.
  - destruct (sameTeam name y) eqn:Ey; [| apply IH; assumption].
    exfalso. apply Hnotin.
    apply sameTeam_iff in Ey. apply sameTeam_iff in Hx.
    rewrite Ey, <- Hx. apply in_map, Hin.
Qed.

Lemma find_some_In (p : LeaderboardEntry -> bool) (x : LeaderboardEntry)
    (s : list LeaderboardEntry) :
  In x s -> p x = true -> find p s <> None.
Proof.
  intros Hin Hx Hnone. eapply find_none in Hnone; [| exact Hin]. congruence.
Qed.

Lemma upserted_In_entry (entry : LeaderboardEntry) (s : list LeaderboardEntry) :
  In entry (upserted entry s).
Proof.
  destruct (upserted_cases entry s)
    as [[_ ->] | (l1 & x & l2 & _ & _ & _ & ->)];
    apply in_or_app; right; left; reflexivity.
Qed.

Lemma upserted_In_other (entry x : LeaderboardEntry)
    (s : list LeaderboardEntry) :
  In x s -> sameTeam (teamName entry) x = false -> In x (upserted entry s).
Proof.
  intros Hin Hx.
  destruct (upserted_cases entry s)
    as [[_ ->] | (l1 & y & l2 & -> & _ & Hy & ->)].
  - apply in_or_app. left. exact Hin.
  - apply in_app_or in Hin. apply in_or_app.
    destruct Hin as [Hin | [-> | Hin]];
      [left; exact Hin | congruence | right; right; exact Hin].
Qed.

Lemma upserted_In_inv (entry x : LeaderboardEntry)
    (s : list LeaderboardEntry) :
  In x (upserted entry s) -> x = entry \/ In x s.
Proof.
  destruct (upserted_cases entry s)
    as [[_ ->] | (l1 & y & l2 & -> & _ & _ & ->)]; intros Hin;
    apply in_app_or in Hin.
  - destruct Hin as [Hin | [-> | []]]; [right; exact Hin | left; reflexivity].
  - destruct Hin as [Hin | [-> | Hin]];
      [right | left; reflexivity | right]; apply in_or_app;
      [left | right; right]; exact Hin.
Qed.

Lemma upserted_Forall (P : LeaderboardEntry -> Prop)
    (entry : LeaderboardEntry) (s : list LeaderboardEntry) :
  Forall P s -> P entry -> Forall P (upserted entry s).
Proof.
  rewrite !List.Forall_forall. intros Hall He x Hx.
  apply upserted_In_inv in Hx. destruct Hx as [-> | Hx]; auto.
Qed.

Lemma upserted_unique (entry : LeaderboardEntry) (s : list LeaderboardEntry) :
  uniqueTeams s -> uniqueTeams (upserted entry s).
Proof.
  unfold uniqueTeams. intros Hnd.
  destruct (upserted_cases entry s)
    as [[Hall ->] | (l1 & x & l2 & -> & _ & Hx & ->)].
  - rewrite map_app. simpl.
    eapply Permutation_NoDup; [apply Permutation_cons_append |].
    constructor; [| exact Hnd].
    intros Hin. apply in_map_iff in Hin. destruct Hin as (e & Hk & He).
    rewrite List.Forall_forall in Hall. specialize (Hall e He).
    apply sameTeam_false_iff in Hall. apply Hall. exact Hk.
  - apply sameTeam_iff in Hx.
    rewrite map_app in *. simpl in *.
    change (toLowerCase (teamName entry)) with (teamKey entry) in Hx.
    rewrite <- Hx. exact Hnd.
Qed.

Lemma upserted_length (entry : LeaderboardEntry) (s : list LeaderboardEntry) :
  length (upserted entry s) =
  match find (sameTeam (teamName entry)) s with
  | Some _ => length s
  | None => S (length s)
  end.
Proof.
  destruct (upserted_cases entry s)
    as [[Hall ->] | (l1 & x & l2 & -> & Hall & Hx & ->)].
  - rewrite (find_none_Forall _ _ Hall), length_app. simpl. lia.
  - rewrite (find_first_match _ _ _ _ Hall Hx), !length_app. reflexivity.
Qed.

Lemma upserted_filter (entry : LeaderboardEntry) (s : list LeaderboardEntry) :
  uniqueTeams s ->
  List.filter (sameTeam (teamName entry)) (upserted entry s) = [entry].
Proof.
  unfold uniqueTeams. intros Hnd.
  assert (Hnone : forall l : list LeaderboardEntry,
            Forall (fun e => sameTeam (teamName entry) e = false) l ->
            List.filter (sameTeam (teamName entry)) l = []).
  { induction 1 as [| y l Hy _ IH]; simpl; [reflexivity |].
    rewrite Hy. exact IH. }
  destruct (upserted_cases entry s)
    as [[Hall ->] | (l1 & x & l2 & -> & Hall & Hx & ->)].
  - rewrite List.filter_app, (Hnone _ Hall). simpl.
    rewrite sameTeam_self. reflexivity.
  - rewrite List.filter_app, (Hnone _ Hall). simpl.
    rewrite sameTeam_self. f_equal. apply Hnone.
    rewrite map_app in Hnd. simpl in Hnd.
    apply List.NoDup_remove_2 in Hnd.
    apply List.Forall_forall. intros e He.
    apply sameTeam_false_iff. intros Hk. apply Hnd.
    apply in_or_app. right.
    apply sameTeam_iff in Hx. rewrite Hx, <- Hk. apply in_map, He.
Qed.

Lemma sort_unique (s : list LeaderboardEntry) :
  uniqueTeams s -> uniqueTeams (sort compareStandings s).
Proof.
  unfold uniqueTeams. apply Permutation_NoDup, Permutation_map.
  apply sort_Permutation.
Qed.

Lemma stored_unique (entry : LeaderboardEntry) (s : list LeaderboardEntry) :
  uniqueTeams s -> uniqueTeams (stored entry s).
Proof. intros Hu. apply sort_unique, upserted_unique, Hu. Qed.

Lemma stored_In_entry (entry : LeaderboardEntry) (s : list LeaderboardEntry) :
  In entry (stored entry s).
Proof. apply sort_In, upserted_In_entry. Qed.

Lemma stored_In_other (entry x : LeaderboardEntry)
    (s : list LeaderboardEntry) :
  In x s -> sameTeam (teamName entry) x = false -> In x (stored entry s).
Proof. intros Hin Hx. apply sort_In, upserted_In_other; assumption. Qed.

Lemma stored_In_inv (entry x : LeaderboardEntry) (s : list LeaderboardEntry) :
  In x (stored entry s) -> x = entry \/ In x s.
Proof. intros Hin. apply sort_In in Hin. apply upserted_In_inv, Hin. Qed.

Lemma stored_Forall (P : LeaderboardEntry -> Prop)
    (entry : LeaderboardEntry) (s : list LeaderboardEntry) :
  Forall P s -> P entry -> Forall P (stored entry s).
Proof. intros Hall He. apply sort_Forall, upserted_Forall; assumption. Qed.

(** Storing an entry leaves the lookup of every other team as it was. *)
Lemma stored_find_other (entry : LeaderboardEntry) (name : string)
    (s : list LeaderboardEntry) :
  uniqueTeams s -> toLowerCase name <> teamKey entry ->
  find (sameTeam name) (stored entry s) = find (sameTeam name) s.
Proof.
  intros Hu Hne.
  destruct (find (sameTeam name) s) as [x |] eqn:Ef.
  - apply find_some in Ef. destruct Ef as [Hin Hx].
    apply find_unique; [apply stored_unique, Hu | | exact Hx].
    apply stored_In_other; [exact Hin |].
    apply sameTeam_false_iff. apply sameTeam_iff in Hx.
    rewrite Hx. exact Hne.
  - apply find_none_Forall, List.Forall_forall. intros x Hx.
    apply stored_In_inv in Hx. destruct Hx as [-> | Hx].
    + apply sameTeam_false_iff. congruence.
    + eapply find_none in Ef; eassumption.
Qed.

Lemma standings_applyTeamResult (name : string) (isHome : bool) (hs as_ : Z)
    (this : Leaderboard) :
  standings (exec (applyTeamResult name isHome hs as_) this)
  = stored (createEntryFromMatch name
              (find (sameTeam name) (standings this)) isHome hs as_)
      (standings this).
Proof.
  unfold applyTeamResult. rewrite exec_bind.
  rewrite standings_addOrUpdateTeam. reflexivity.
Qed.

Lemma standings_applyMatchResult (home away : string) (hs as_ : Z)
    (this : Leaderboard) :
  standings (exec (applyMatchResult home away hs as_) this)
  = let s1 := stored (createEntryFromMatch home
                        (find (sameTeam home) (standings this)) true hs as_)
                (standings this) in
    stored (createEntryFromMatch away (find (sameTeam away) s1) false hs as_)
      s1.
Proof.
  unfold applyMatchResult. rewrite exec_bind.
  rewrite standings_applyTeamResult, standings_applyTeamResult.
  reflexivity.
Qed.

(** The entry built for a team that was looked up by name carries the
    team's key. *)
Lemma createEntryFromMatch_key (name : string) (isHome : bool) (hs as_ : Z)
    (s : list LeaderboardEntry) :
  teamKey (createEntryFromMatch name (find (sameTeam name) s) isHome hs as_)
  = toLowerCase name.
Proof.
  unfold teamKey. rewrite createEntryFromMatch_teamName.
  destruct (find (sameTeam name) s) as [e |] eqn:Ef; simpl; [| reflexivity].
  apply find_some in Ef. apply sameTeam_iff, Ef.
Qed.

End Tables.

(** Closes [List.NoDup] of a list of different literal names. *)
Ltac distinct_names :=
  simpl;
  repeat (constructor; [simpl; intuition discriminate |]);
  constructor.

(** ** Applying a match result: the counters *)

(** C1.  [createEntryFromMatch] adds one match to the entry it starts from:
    played + 1, the team's own score to goalsFor, the opponent's to
    goalsAgainst; a strictly greater score gives won + 1 and points + 3,
    equal scores drawn + 1 and points + 1, a lesser score lost + 1 and no
    points.  In a table with one entry per team, after the match of two
    different teams is applied ([createEntryFromMatch] then
    [addOrUpdateTeam] for each), the entry the table holds for either team
    is its previous entry (a fresh zeroed one when it had none) with the
    match added in this way.  From a fresh zeroed entry a 3-1 win gives
    played 1, won 1, drawn 0, lost 0, goalsFor 3, goalsAgainst 1,
    goalDifference 2, points 3 to the winner and played 1, won 0, drawn 0,
    lost 1, goalsFor 1, goalsAgainst 3, goalDifference -2, points 0 to the
    loser. *)
Theorem applyMatchResult_credits `{StringBuiltins} (this : Leaderboard)
    (home away : string) (hs as_ : Z) :
  uniqueTeams (standings this) ->
  toLowerCase home <> toLowerCase away ->
  let this' := exec (applyMatchResult home away hs as_) this in
  (forall (name : string) (existing : option LeaderboardEntry) (isHome : bool),
     credited (baseEntryOf name existing)
       (if isHome then hs else as_) (if isHome then as_ else hs)
       (createEntryFromMatch name existing isHome hs as_)) /\
  (exists rh ra,
     result (getTeamStanding home) this' = Some rh /\
     credited (baseEntryOf home (result (getTeamStanding home) this))
       hs as_ rh /\
     result (getTeamStanding away) this' = Some ra /\
     credited (baseEntryOf away (result (getTeamStanding away) this))
       as_ hs ra) /\
  createEntryFromMatch home None true 3 1 = mkEntry home 1 1 0 0 3 1 2 3 /\
  createEntryFromMatch away None false 3 1 = mkEntry away 1 0 0 1 1 3 (-2) 0.
Proof.
  intros Hu Hne this'.
  split; [intros; apply createEntryFromMatch_credited |].
  split; [| split; reflexivity].
  set (s := standings this).
  set (rh := createEntryFromMatch home (find (sameTeam home) s) true hs as_).
  set (s1 := stored rh s).
  set (ra := createEntryFromMatch away (find (sameTeam away) s1) false hs as_).
  assert (Hs' : standings this' = stored ra s1)
    by apply standings_applyMatchResult.
  assert (Hkh : teamKey rh = toLowerCase home)
    by apply createEntryFromMatch_key.
  assert (Hka : teamKey ra = toLowerCase away)
    by apply createEntryFromMatch_key.
  assert (Hu1 : uniqueTeams s1) by apply stored_unique, Hu.
  assert (Hu2 : uniqueTeams (stored ra s1)) by apply stored_unique, Hu1.
  assert (Hfa : find (sameTeam away) s1 = find (sameTeam away) s).
  { apply stored_find_other; [exact Hu | congruence]. }
  exists rh, ra. rewrite !result_getTeamStanding, Hs'. fold s.
  split; [| split; [| split]].
  - apply find_unique; [exact Hu2 | | apply sameTeam_iff, Hkh].
    apply stored_In_other; [apply stored_In_entry |].
    apply sameTeam_false_iff.
    change (toLowerCase (teamName ra)) with (teamKey ra). congruence.
  - apply (createEntryFromMatch_credited home _ true).
  - apply find_unique;
      [exact Hu2 | apply stored_In_entry | apply sameTeam_iff, Hka].
  - rewrite <- Hfa. apply (createEntryFromMatch_credited away _ false).
Qed.

(** The 3-1 match of A and B applied to an empty table, in the ASCII
    locale. *)
Lemma applyMatchResult_credits_witness :
  let this := mkLeaderboard 1 [] None None None in
  let this' := exec (applyMatchResult "A" "B" 3 1) this in
  (forall (name : string) (existing : option LeaderboardEntry) (isHome : bool),
     credited (baseEntryOf name existing)
       (if isHome then 3 else 1) (if isHome then 1 else 3)
       (createEntryFromMatch name existing isHome 3 1)) /\
  (exists rh ra,
     result (getTeamStanding "A") this' = Some rh /\
     credited (baseEntryOf "A" (result (getTeamStanding "A") this)) 3 1 rh /\
     result (getTeamStanding "B") this' = Some ra /\
     credited (baseEntryOf "B" (result (getTeamStanding "B") this)) 1 3 ra) /\
  createEntryFromMatch "A" None true 3 1 = mkEntry "A" 1 1 0 0 3 1 2 3 /\
  createEntryFromMatch "B" None false 3 1 = mkEntry "B" 1 0 0 1 1 3 (-2) 0.
Proof.
  apply (applyMatchResult_credits (mkLeaderboard 1 [] None None None)
           "A" "B" 3 1).
  - constructor.
  - simpl. discriminate.
Defined.

(** ** Applying a match result: the invariants *)

Section Invariants.
Context `{StringBuiltins}.
Variable P : LeaderboardEntry -> Prop.
Hypothesis P_zero : forall name, P (zeroEntry name).
Hypothesis P_create :
  forall name existing isHome hs as_,
    P (baseEntryOf name existing) ->
    P (createEntryFromMatch name existing isHome hs as_).

Lemma applyTeamResult_Forall (name : string) (isHome : bool) (hs as_ : Z)
    (this : Leaderboard) :
  Forall P (standings this) ->
  Forall P (standings (exec (applyTeamResult name isHome hs as_) this)).
Proof.
  intros Hall. rewrite standings_applyTeamResult.
  apply stored_Forall; [exact Hall |].
  apply P_create.
  destruct (find (sameTeam name) (standings this)) as [e |] eqn:Ef; simpl.
  - apply find_some in Ef. rewrite List.Forall_forall in Hall.
    apply Hall, Ef.
  - apply P_zero.
Qed.

Lemma applyMatchResult_Forall (home away : string) (hs as_ : Z)
    (this : Leaderboard) :
  Forall P (standings this) ->
  Forall P (standings (exec (applyMatchResult home away hs as_) this)).
Proof.
  intros Hall. unfold applyMatchResult. rewrite exec_bind.
  apply applyTeamResult_Forall, applyTeamResult_Forall, Hall.
Qed.

Lemma applyMatches_Forall (ms : list MatchResult) (this : Leaderboard) :
  Forall P (standings this) ->
  Forall P (standings (exec (applyMatches ms) this)).
Proof.
  revert this. induction ms as [| m ms IH]; intros this Hall; simpl.
  - exact Hall.
  - rewrite exec_bind. apply IH, applyMatchResult_Forall, Hall.
Qed.

End Invariants.

(** C5.  If every entry of the table satisfies
    goalDifference = goalsFor - goalsAgainst, then so does every entry of
    the table after a match result has been applied
    ([createEntryFromMatch] for both teams and [addOrUpdateTeam]). *)
Theorem applyMatchResult_goalDifference `{StringBuiltins} (this : Leaderboard)
    (home away : string) (hs as_ : Z) :
  Forall goalDifferenceInv (standings this) ->
  Forall goalDifferenceInv
    (standings (exec (applyMatchResult home away hs as_) this)).
Proof.
  apply applyMatchResult_Forall.
  - intros name. reflexivity.
  - intros name existing isHome hs' as' _.
    apply createEntryFromMatch_goalDifference.
Qed.

(** A table whose one entry has the right goal difference, and B beating
    A 2-0 on it. *)
Lemma applyMatchResult_goalDifference_witness :
  Forall goalDifferenceInv
    (standings
       (exec (applyMatchResult "B" "A" 2 0)
          (mkLeaderboard 1 [mkEntry "A" 1 1 0 0 3 1 2 3] None None None))).
Proof.
  apply (applyMatchResult_goalDifference
           (mkLeaderboard 1 [mkEntry "A" 1 1 0 0 3 1 2 3] None None None)
           "B" "A" 2 0).
  repeat constructor.
Defined.

(** C6.  If every entry of the table satisfies won + drawn + lost = played,
    then so does every entry of the table after a match result has been
    applied; each call of [createEntryFromMatch] adds 1 to played and 1 to
    exactly one of won, drawn and lost. *)
Theorem applyMatchResult_played `{StringBuiltins} (this : Leaderboard)
    (home away : string) (hs as_ : Z) :
  Forall playedInv (standings this) ->
  Forall playedInv
    (standings (exec (applyMatchResult home away hs as_) this)) /\
  (forall (name : string) (existing : option LeaderboardEntry)
          (isHome : bool),
     let base := baseEntryOf name existing in
     let r := createEntryFromMatch name existing isHome hs as_ in
     played r = played base + 1 /\
     ((won r = won base + 1 /\ drawn r = drawn base /\ lost r = lost base) \/
      (won r = won base /\ drawn r = drawn base + 1 /\ lost r = lost base) \/
      (won r = won base /\ drawn r = drawn base /\ lost r = lost base + 1))).
Proof.
  intros Hall. split.
  - revert Hall. apply applyMatchResult_Forall.
    + intros name. reflexivity.
    + intros name existing isHome hs' as'.
      apply createEntryFromMatch_played.
  - intros name existing isHome base r.
    pose proof (createEntryFromMatch_credited name existing isHome hs as_)
      as (_ & Hp & _ & _ & _ & Hwin & Hdraw & Hloss).
    fold base r in Hp, Hwin, Hdraw, Hloss.
    split; [exact Hp |].
    set (own := if isHome then hs else as_) in *.
    set (opp := if isHome then as_ else hs) in *.
    destruct (Z.lt_trichotomy opp own) as [Hlt | [Heq | Hgt]].
    + left. destruct (Hwin Hlt) as (? & _ & ? & ?). auto.
    + right; left. destruct (Hdraw (eq_sym Heq)) as (? & _ & ? & ?). auto.
    + right; right. destruct (Hloss Hgt) as (? & _ & ? & ?). auto.
Qed.

(** A table whose one entry is consistent, and a 1-1 draw on it. *)
Lemma applyMatchResult_played_witness :
  let this := mkLeaderboard 1 [mkEntry "A" 1 1 0 0 3 1 2 3] None None None in
  Forall playedInv (standings (exec (applyMatchResult "A" "B" 1 1) this)) /\
  (forall (name : string) (existing : option LeaderboardEntry)
          (isHome : bool),
     let base := baseEntryOf name existing in
     let r := createEntryFromMatch name existing isHome 1 1 in
     played r = played base + 1 /\
     ((won r = won base + 1 /\ drawn r = drawn base /\ lost r = lost base) \/
      (won r = won base /\ drawn r = drawn base + 1 /\ lost r = lost base) \/
      (won r = won base /\ drawn r = drawn base /\ lost r = lost base + 1))).
Proof.
  apply (applyMatchResult_played
           (mkLeaderboard 1 [mkEntry "A" 1 1 0 0 3 1 2 3] None None None)
           "A" "B" 1 1).
  repeat constructor.
Defined.

(** C7.  [createEntryFromMatch] keeps points = 3*won + 1*drawn: the entry
    it returns for an existing entry with that property has it, and so has
    the entry it returns when no existing entry is given, which it builds
    from the fresh zeroed entry.  Hence, starting from a table of zeroed
    entries, every entry has the property after any sequence of applied
    match results. *)
Theorem points_invariant `{StringBuiltins} :
  (forall (name : string) (e : LeaderboardEntry) (isHome : bool) (hs as_ : Z),
     pointsInv e ->
     pointsInv (createEntryFromMatch name (Some e) isHome hs as_)) /\
  (forall name : string, pointsInv (zeroEntry name)) /\
  (forall (name : string) (isHome : bool) (hs as_ : Z),
     pointsInv (createEntryFromMatch name None isHome hs as_)) /\
  (forall (this : Leaderboard) (ms : list MatchResult),
     Forall zeroed (standings this) ->
     Forall pointsInv (standings (exec (applyMatches ms) this))).
Proof.
  assert (Hzero : forall name : string, pointsInv (zeroEntry name))
    by (intros name; reflexivity).
  split; [| split; [exact Hzero | split]].
  - intros name e isHome hs as_.
    apply (createEntryFromMatch_points name (Some e)).
  - intros name isHome hs as_.
    apply (createEntryFromMatch_points name None), Hzero.
  - intros this ms Hall.
    apply applyMatches_Forall.
    + exact Hzero.
    + intros name existing isHome hs as_.
      apply createEntryFromMatch_points.
    + revert Hall. apply List.Forall_impl. intros e ->. apply Hzero.
Qed.

(** Two zeroed entries and two matches between them. *)
Lemma points_invariant_witness :
  Forall pointsInv
    (standings
       (exec (applyMatches [mkMatchResult "A" "B" 3 1;
                            mkMatchResult "B" "A" 2 2])
          (mkLeaderboard 1 [zeroEntry "A"; zeroEntry "B"] None None None))).
Proof.
  apply (proj2 (proj2 (proj2 (@points_invariant asciiStrings)))).
  repeat constructor.
Defined.

(** ** addOrUpdateTeam and removeTeam *)

(** C10.  In a table whose team names are pairwise different, case apart,
    [addOrUpdateTeam entry] leaves a table whose team names are again
    pairwise different, case apart; exactly one of its entries has the
    team name of [entry], case apart, and that one is [entry]; its length
    is the old length when the team had an entry and the old length plus
    one when it had none. *)
Theorem addOrUpdateTeam_unique `{StringBuiltins} (this : Leaderboard)
    (entry : LeaderboardEntry) :
  uniqueTeams (standings this) ->
  let this' := exec (addOrUpdateTeam entry) this in
  uniqueTeams (standings this') /\
  List.filter (sameTeam (teamName entry)) (standings this') = [entry] /\
  length (standings this') =
    match result (getTeamStanding (teamName entry)) this with
    | Some _ => length (standings this)
    | None => S (length (standings this))
    end.
Proof.
  intros Hu this'. unfold this'.
  rewrite standings_addOrUpdateTeam, result_getTeamStanding.
  split; [| split].
  - apply stored_unique, Hu.
  - apply Permutation_length_1_inv.
    rewrite <- (upserted_filter entry (standings this) Hu).
    apply sort_filter.
  - rewrite sort_length. apply upserted_length.
Qed.

(** A table with Ajax and Brugge; an entry for AJAX replaces the first. *)
Lemma addOrUpdateTeam_unique_witness :
  let this := mkLeaderboard 1
                [mkEntry "Ajax" 1 1 0 0 3 1 2 3; zeroEntry "Brugge"]
                None None None in
  let entry := mkEntry "AJAX" 2 1 0 1 3 2 1 3 in
  let this' := exec (addOrUpdateTeam entry) this in
  uniqueTeams (standings this') /\
  List.filter (sameTeam (teamName entry)) (standings this') = [entry] /\
  length (standings this') =
    match result (getTeamStanding (teamName entry)) this with
    | Some _ => length (standings this)
    | None => S (length (standings this))
    end.
Proof.
  apply (addOrUpdateTeam_unique
           (mkLeaderboard 1
              [mkEntry "Ajax" 1 1 0 0 3 1 2 3; zeroEntry "Brugge"]
              None None None)
           (mkEntry "AJAX" 2 1 0 1 3 2 1 3)).
  unfold uniqueTeams. distinct_names.
Defined.

Section RemoveTeam.
Context `{StringBuiltins}.

Lemma removeTeam_absent (name : string) (this : Leaderboard) :
  Forall (fun e => sameTeam name e = false) (standings this) ->
  removeTeam name this = (false, this).
Proof.
  intros Hall. unfold removeTeam, bind, getStandings, findIndex. simpl.
  rewrite findIndexFrom_none by (lia || assumption). reflexivity.
Qed.

Lemma removeTeam_present (name : string) (this : Leaderboard)
    (l1 l2 : list LeaderboardEntry) (x : LeaderboardEntry) :
  standings this = l1 ++ x :: l2 ->
  Forall (fun e => sameTeam name e = false) l1 ->
  sameTeam name x = true ->
  removeTeam name this = (true, exec (setStandings (l1 ++ l2)) this).
Proof.
  intros Hs Hall Hx. unfold removeTeam, bind, getStandings, findIndex.
  rewrite Hs, (findIndexFrom_some _ _ _ _ _ Hall Hx), Z.add_0_l.
  destruct (0 <=? Z.of_nat (length l1)) eqn:E;
    [| apply Z.leb_gt in E; lia].
  rewrite splice_one. reflexivity.
Qed.

End RemoveTeam.

(** C8.  [removeTeam name] either finds no entry with that team name, case
    apart, and then returns false and leaves the leaderboard as it was; or
    it returns true and the table it leaves is the old one without the
    first entry with that name, all other entries being kept with their
    values and in their order.  It returns true exactly when such an entry
    existed.  In a table with one entry per team the removed entry was the
    only one of that name: afterwards the lookup of the name finds
    nothing. *)
Theorem removeTeam_spec `{StringBuiltins} (this : Leaderboard) (name : string) :
  ((Forall (fun e => sameTeam name e = false) (standings this) /\
    removeTeam name this = (false, this)) \/
   (exists l1 x l2,
      standings this = l1 ++ x :: l2 /\
      Forall (fun e => sameTeam name e = false) l1 /\
      sameTeam name x = true /\
      result (removeTeam name) this = true /\
      standings (exec (removeTeam name) this) = l1 ++ l2 /\
      (uniqueTeams (standings this) ->
       result (getTeamStanding name) (exec (removeTeam name) this) = None)))
  /\
  (result (removeTeam name) this = true <->
   exists e, In e (standings this) /\ sameTeam name e = true).
Proof.
  destruct (first_match_split (sameTeam name) (standings this))
    as [Hall | (l1 & x & l2 & Hs & Hall & Hx)].
  - split.
    + left. split; [exact Hall | apply removeTeam_absent, Hall].
    + unfold result. rewrite (removeTeam_absent _ _ Hall). simpl.
      split; [discriminate |].
      intros (e & He & Hsame). rewrite List.Forall_forall in Hall.
      rewrite (Hall e He) in Hsame. discriminate.
  - pose proof (removeTeam_present name this l1 l2 x Hs Hall Hx) as Hr.
    split.
    + right. exists l1, x, l2. unfold result, exec. rewrite Hr. simpl.
      repeat split; try assumption.
      intros Hu. apply find_none_Forall. apply Forall_app. split.
      * exact Hall.
      * unfold uniqueTeams in Hu. rewrite Hs, map_app in Hu. simpl in Hu.
        apply List.NoDup_remove_2 in Hu.
        apply List.Forall_forall. intros e He.
        apply sameTeam_false_iff. intros Hk. apply Hu.
        apply in_or_app. right.
        apply sameTeam_iff in Hx. rewrite Hx, <- Hk. apply in_map, He.
    + unfold result. rewrite Hr. simpl. split; [| reflexivity].
      intros _. exists x. split; [| exact Hx].
      rewrite Hs. apply in_or_app. right. left. reflexivity.
Qed.

(** Removing ajax from a table with Ajax and Brugge. *)
Lemma removeTeam_spec_witness :
  result (getTeamStanding "ajax")
    (exec (removeTeam "ajax")
       (mkLeaderboard 1 [zeroEntry "Brugge"; zeroEntry "Ajax"]
          None None None)) = None.
Proof.
  pose proof (proj1 (@removeTeam_spec asciiStrings
                      (mkLeaderboard 1 [zeroEntry "Brugge"; zeroEntry "Ajax"]
                         None None None) "ajax")) as Hspec.
  destruct Hspec as [[_ Habsent] | (l1 & x & l2 & Hs & _ & _ & _ & _ & Hgone)].
  - discriminate Habsent.
  - apply Hgone. unfold uniqueTeams. distinct_names.
Defined.

(** ** sortStandings *)

Section SortStandings.
Context `{StringBuiltins}.

Lemma ranksBefore_inOrder (s : list LeaderboardEntry) :
  StronglySorted (inOrder compareStandings) s -> StronglySorted ranksBefore s.
Proof.
  induction 1 as [| x l _ IH Hx]; constructor; [exact IH |].
  revert Hx. apply List.Forall_impl. intros y.
  apply compareStandings_le_iff.
Qed.

Lemma ranksBefore_folded (s : list LeaderboardEntry) :
  (forall a b : string,
     localeCompare a b <= 0 ->
     localeCompare (toLowerCase a) (toLowerCase b) <= 0) ->
  StronglySorted ranksBefore s -> StronglySorted ranksBeforeFolded s.
Proof.
  intros Hfold.
  induction 1 as [| x l _ IH Hx]; constructor; [exact IH |].
  revert Hx. apply List.Forall_impl. intros y.
  unfold ranksBefore, ranksBeforeFolded.
  intros [Hp | [Hp [Hd | [Hd [Hg | [Hg Hn]]]]]];
    try (left; lia);
    right; (split; [lia |]);
    try (left; lia);
    right; (split; [lia |]);
    try (left; lia);
    right; (split; [lia |]).
  apply Hfold, Hn.
Qed.

Lemma NoDup_map_In_eq {B : Type} (f : LeaderboardEntry -> B)
    (s : list LeaderboardEntry) (a b : LeaderboardEntry) :
  List.NoDup (map f s) -> In a s -> In b s -> f a = f b -> a = b.
Proof.
  induction s as [| x s IH]; simpl; intros Hnd Ha Hb Hf; [contradiction |].
  inversion Hnd as [| k ks Hnotin Hnd']; subst.
  destruct Ha as [-> | Ha], Hb as [-> | Hb].
  - reflexivity.
  - exfalso. apply Hnotin. rewrite Hf. apply in_map, Hb.
  - exfalso. apply Hnotin. rewrite <- Hf. apply in_map, Ha.
  - apply IH; assumption.
Qed.


End SortStandings.

(** C2.  [sortStandings] rearranges the entries of the table, and in the
    result every entry ranks before every later one: more points first; on
    equal points the greater goal difference first; on equal goal difference
    too the more goals for first; and when these are equal too the team
    names in ascending order under [localeCompare], the locale-aware
    comparison of the runtime.  In a locale in which case only breaks ties
    (putting both names in lower case never reverses their order) the
    result is in ascending order of the names compared without regard to
    case.  Two entries that differ in the name only, Zeta and Alpha with 10
    points and goal difference 2, are put with Alpha before Zeta, the
    locale placing Alpha before Zeta. *)
Theorem sortStandings_ranking `{StringBuiltins} (this : Leaderboard) :
  Permutation (standings this) (standings (exec sortStandings this)) /\
  StronglySorted ranksBefore (standings (exec sortStandings this)) /\
  ((forall a b : string,
      localeCompare a b <= 0 ->
      localeCompare (toLowerCase a) (toLowerCase b) <= 0) ->
   StronglySorted ranksBeforeFolded (standings (exec sortStandings this))) /\
  (forall (pl w d l gf ga : Z),
     0 < localeCompare "Zeta" "Alpha" ->
     standings
       (exec sortStandings
          (exec (setStandings [mkEntry "Zeta" pl w d l gf ga 2 10;
                               mkEntry "Alpha" pl w d l gf ga 2 10]) this))
     = [mkEntry "Alpha" pl w d l gf ga 2 10;
        mkEntry "Zeta" pl w d l gf ga 2 10]).
Proof.
  rewrite standings_sortStandings.
  assert (Hsorted : StronglySorted ranksBefore
                      (sort compareStandings (standings this))).
  { apply ranksBefore_inOrder, sort_StronglySorted.
    - apply compareStandings_total.
    - apply compareStandings_trans. }
  split; [| split; [| split]].
  - apply sort_Permutation.
  - exact Hsorted.
  - intros Hfold. eapply ranksBefore_folded; eassumption.
  - intros pl w d l gf ga Hlt.
    rewrite standings_sortStandings. simpl.
    unfold compareStandings. simpl. rewrite !Z.eqb_refl. simpl.
    destruct (localeCompare "Zeta" "Alpha" <=? 0) eqn:E;
      [apply Z.leb_le in E; lia | reflexivity].
Qed.

(** The two entries of the example in the ASCII locale, in which case
    only breaks ties. *)
Lemma sortStandings_ranking_witness :
  let this := mkLeaderboard 1 [mkEntry "Zeta" 5 3 1 1 7 5 2 10;
                               mkEntry "Alpha" 5 3 1 1 7 5 2 10]
                None None None in
  StronglySorted ranksBeforeFolded (standings (exec sortStandings this)) /\
  standings (exec sortStandings this)
  = [mkEntry "Alpha" 5 3 1 1 7 5 2 10; mkEntry "Zeta" 5 3 1 1 7 5 2 10].
Proof.
  split.
  - apply (proj1 (proj2 (proj2 (@sortStandings_ranking asciiStrings
                                  (mkLeaderboard 1
                                     [mkEntry "Zeta" 5 3 1 1 7 5 2 10;
                                      mkEntry "Alpha" 5 3 1 1 7 5 2 10]
                                     None None None))))).
    exact asciiLocaleCompare_fold.
  - apply (proj2 (proj2 (proj2 (@sortStandings_ranking asciiStrings
                                  (mkLeaderboard 1 [] None None None))))
             5 3 1 1 7 5).
    reflexivity.
Defined.

(** [sortStandings] returns the stable sort of the table, whatever
    algorithm the runtime uses for it. *)
Lemma sortStandings_stable `{StringBuiltins} (this : Leaderboard)
    (s' : list LeaderboardEntry) :
  StronglySorted (inOrder compareStandings) s' ->
  (forall x, List.filter (tied compareStandings x) s'
             = List.filter (tied compareStandings x) (standings this)) ->
  standings (exec sortStandings this) = s'.
Proof.
  intros Hs Hsame. rewrite standings_sortStandings. symmetry.
  apply sort_is_the_stable_sort; try assumption.
  - apply compareStandings_antisym.
  - apply compareStandings_trans.
Qed.



(** ** getTopTeams *)

(** C4, as the specification states it, fails for a negative count:
    [slice(0, -1)] drops the last entry instead of returning nothing.  On
    a table of two entries [getTopTeams(-1)] returns the first. *)
Lemma getTopTeams_negative_counterexample :
  let this := mkLeaderboard 1 [zeroEntry "A"; zeroEntry "B"] None None None in
  -1 <= 0 /\
  result (getTopTeams (-1)) this = [zeroEntry "A"] /\
  result (getTopTeams (-1)) this <> [].
Proof. simpl. repeat split; [lia | discriminate]. Qed.

(** C4, amended.  [getTopTeams n] returns the entries [slice(0, n)]
    selects and leaves the leaderboard as it was: nothing when n is 0 or
    the table is empty; the first n entries when n is positive, which are
    all entries when n is at least the length; and for a negative n the
    table without its last -n entries. *)
Theorem getTopTeams_slice (this : Leaderboard) (n : Z) :
  let s := standings this in
  let top := result (getTopTeams n) this in
  top = firstn (Z.to_nat (if n <? 0 then Z.of_nat (length s) + n else n)) s /\
  exec (getTopTeams n) this = this /\
  (n = 0 \/ s = [] -> top = []) /\
  (0 < n -> top = firstn (Z.to_nat n) s) /\
  (Z.of_nat (length s) <= n -> top = s) /\
  (n < 0 -> top = firstn (length s - Z.to_nat (- n)) s).
Proof.
  intros s top.
  assert (Htop : top = firstn (Z.to_nat (if n <? 0
                                          then Z.of_nat (length s) + n
                                          else n)) s)
    by apply slice_from_zero.
  split; [exact Htop |]. split; [reflexivity |].
  rewrite Htop. repeat split.
  - intros [-> | ->]; [reflexivity |].
    apply firstn_nil.
  - intros Hpos. destruct (n <? 0) eqn:E; [apply Z.ltb_lt in E; lia |].
    reflexivity.
  - intros Hlen. destruct (n <? 0) eqn:E; [apply Z.ltb_lt in E; lia |].
    apply firstn_all2. lia.
  - intros Hneg. destruct (n <? 0) eqn:E; [| apply Z.ltb_ge in E; lia].
    f_equal. lia.
Qed.

(** ** Validation *)

Section Validation.
Context `{StringBuiltins}.


End Validation.

(** [isStandingsValid] on the JSON image of a table: it returns exactly
    when every entry is well formed, and throws otherwise. *)
Lemma checkEntry_entryToJson (index : nat) (e : LeaderboardEntry) :
  (wellFormedEntry e /\ checkEntry index (entryToJson e) = Returned tt) \/
  (~ wellFormedEntry e /\
   exists message, checkEntry index (entryToJson e) = Threw message).
Proof.
  destruct e as [name pl w d l gf ga gd pts].
  unfold wellFormedEntry, checkEntry, checkCounter, entryToJson. cbn.
  destruct name as [| c name]; cbn.
  { right. split; [intros [Hn _]; congruence | eexists; reflexivity]. }
  repeat
    match goal with
    | |- context [?x <? 0] =>
        destruct (Z.ltb_spec x 0); cbn;
        [right; split; [intros ?; lia | eexists; reflexivity] |]
    end.
  left. split; [| reflexivity]. repeat split; try lia. discriminate.
Qed.

Lemma forEachEntry_entryToJson (s : list LeaderboardEntry) (index : nat) :
  (Forall wellFormedEntry s /\
   forEachEntry index (map entryToJson s) = Returned tt) \/
  (~ Forall wellFormedEntry s /\
   exists message, forEachEntry index (map entryToJson s) = Threw message).
Proof.
  revert index. induction s as [| e s IH]; intros index; cbn [map forEachEntry].
  - left. split; [constructor | reflexivity].
  - destruct (checkEntry_entryToJson index e) as [[He ->] | [He [m ->]]];
      cbn [andThen].
    + destruct (IH (S index)) as [[Hs ->] | [Hs [m ->]]].
      * left. split; [constructor; assumption | reflexivity].
      * right. split; [| eexists; reflexivity].
        intros Hall. apply Hs. inversion Hall; assumption.
    + right. split; [| eexists; reflexivity].
      intros Hall. apply He. inversion Hall; assumption.
Qed.




(** * Further properties of the models *)

(** ** Looking a team up after the table has changed *)

Section Lookups.
Context `{StringBuiltins}.

Lemma stored_find_entry (entry : LeaderboardEntry) (name : string)
    (s : list LeaderboardEntry) :
  uniqueTeams s -> toLowerCase name = teamKey entry ->
  find (sameTeam name) (stored entry s) = Some entry.
Proof.
  intros Hu Hk. apply find_unique.
  - apply stored_unique, Hu.
  - apply stored_In_entry.
  - apply sameTeam_iff. congruence.
Qed.

Lemma stored_find_kept (entry : LeaderboardEntry) (name : string)
    (s : list LeaderboardEntry) :
  find (sameTeam name) s <> None ->
  find (sameTeam name) (stored entry s) <> None.
Proof.
  intros Hsome.
  destruct (find (sameTeam name) s) as [x |] eqn:Ef; [| congruence].
  apply find_some in Ef. destruct Ef as [Hin Hx].
  destruct (sameTeam (teamName entry) x) eqn:E.
  - apply (find_some_In _ entry); [apply stored_In_entry |].
    apply sameTeam_iff. apply sameTeam_iff in E. apply sameTeam_iff in Hx.
    change (toLowerCase (teamName entry)) with (teamKey entry) in E.
    congruence.
  - apply (find_some_In _ x); [| exact Hx].
    apply stored_In_other; assumption.
Qed.

Lemma stored_length_bounds (entry : LeaderboardEntry)
    (s : list LeaderboardEntry) :
  (length s <= length (stored entry s) <= S (length s))%nat.
Proof.
  unfold stored. rewrite sort_length, upserted_length.
  destruct (find (sameTeam (teamName entry)) s); lia.
Qed.

End Lookups.

(** X1.  In a table with one entry per team, after [addOrUpdateTeam entry]
    the lookup of the entry's team, however the name is cased, returns
    [entry], and the lookup of every other team returns what it returned
    before. *)
Theorem getTeamStanding_addOrUpdateTeam `{StringBuiltins}
    (this : Leaderboard) (entry : LeaderboardEntry) (name : string) :
  uniqueTeams (standings this) ->
  let this' := exec (addOrUpdateTeam entry) this in
  (toLowerCase name = toLowerCase (teamName entry) ->
   result (getTeamStanding name) this' = Some entry) /\
  (toLowerCase name <> toLowerCase (teamName entry) ->
   result (getTeamStanding name) this'
   = result (getTeamStanding name) this).
Proof.
  intros Hu this'. unfold this'.
  rewrite !result_getTeamStanding, standings_addOrUpdateTeam.
  fold (stored entry (standings this)). split; intros Hk.
  - apply stored_find_entry; assumption.
  - apply stored_find_other; assumption.
Qed.

(** An entry for AJAX put into a table with Ajax and Brugge, and the lookups
    of ajax and of brugge. *)
Lemma getTeamStanding_addOrUpdateTeam_witness :
  let this := mkLeaderboard 1
                [mkEntry "Ajax" 1 1 0 0 3 1 2 3; zeroEntry "Brugge"]
                None None None in
  let entry := mkEntry "AJAX" 2 1 0 1 3 2 1 3 in
  result (getTeamStanding "ajax") (exec (addOrUpdateTeam entry) this)
    = Some entry /\
  result (getTeamStanding "brugge") (exec (addOrUpdateTeam entry) this)
    = result (getTeamStanding "brugge") this.
Proof.
  split.
  - apply (proj1 (getTeamStanding_addOrUpdateTeam
                    (mkLeaderboard 1
                       [mkEntry "Ajax" 1 1 0 0 3 1 2 3; zeroEntry "Brugge"]
                       None None None)
                    (mkEntry "AJAX" 2 1 0 1 3 2 1 3) "ajax"
                    ltac:(unfold uniqueTeams; distinct_names))).
    reflexivity.
  - apply (proj2 (getTeamStanding_addOrUpdateTeam
                    (mkLeaderboard 1
                       [mkEntry "Ajax" 1 1 0 0 3 1 2 3; zeroEntry "Brugge"]
                       None None None)
                    (mkEntry "AJAX" 2 1 0 1 3 2 1 3) "brugge"
                    ltac:(unfold uniqueTeams; distinct_names))).
    simpl. discriminate.
Defined.

(** X2.  [addOrUpdateTeam] and the application of a match result never drop
    a team: a team that had an entry has one afterwards, whatever the table
    (entries of one team twice included), and the number of entries stays
    or grows, by at most one for [addOrUpdateTeam] and by at most two for a
    match. *)
Theorem teams_are_kept `{StringBuiltins} (this : Leaderboard)
    (entry : LeaderboardEntry) (home away : string) (hs as_ : Z)
    (name : string) :
  result (getTeamStanding name) this <> None ->
  (result (getTeamStanding name) (exec (addOrUpdateTeam entry) this) <> None /\
   getTeamCount this <= getTeamCount (exec (addOrUpdateTeam entry) this)
     <= getTeamCount this + 1) /\
  (result (getTeamStanding name)
     (exec (applyMatchResult home away hs as_) this) <> None /\
   getTeamCount this
     <= getTeamCount (exec (applyMatchResult home away hs as_) this)
     <= getTeamCount this + 2).
Proof.
  intros Hsome. rewrite result_getTeamStanding in Hsome.
  unfold getTeamCount.
  rewrite !result_getTeamStanding, standings_addOrUpdateTeam,
    standings_applyMatchResult.
  fold (stored entry (standings this)). cbv zeta.
  set (s := standings this) in *.
  set (rh := createEntryFromMatch home (find (sameTeam home) s) true hs as_).
  set (s1 := stored rh s).
  set (ra := createEntryFromMatch away (find (sameTeam away) s1) false hs as_).
  pose proof (stored_length_bounds entry s) as Hb.
  pose proof (stored_length_bounds rh s) as Hb1.
  pose proof (stored_length_bounds ra s1) as Hb2.
  change (stored rh s) with s1 in Hb1.
  repeat split; try lia.
  - apply stored_find_kept, Hsome.
  - apply stored_find_kept, stored_find_kept, Hsome.
Qed.

(** Brugge stays in the table when Ajax is stored and when Ajax plays
    Cercle. *)
Lemma teams_are_kept_witness :
  let this := mkLeaderboard 1
                [mkEntry "Ajax" 1 1 0 0 3 1 2 3; zeroEntry "Brugge"]
                None None None in
  result (getTeamStanding "brugge")
    (exec (applyMatchResult "Ajax" "Cercle" 0 2) this) <> None.
Proof.
  apply (teams_are_kept
           (mkLeaderboard 1
              [mkEntry "Ajax" 1 1 0 0 3 1 2 3; zeroEntry "Brugge"]
              None None None)
           (zeroEntry "Ajax") "Ajax" "Cercle" 0 2 "brugge").
  simpl. discriminate.
Defined.

(** ** The top of the table *)

Lemma skipn_In_list {A : Type} (k : nat) (l : list A) (x : A) :
  In x (skipn k l) -> In x l.
Proof.
  revert l. induction k as [| k IH]; intros l Hx; [exact Hx |].
  destruct l as [| y l]; [exact Hx |]. right. apply IH, Hx.
Qed.

Section Top.
Context `{StringBuiltins}.

Lemma getTopTeam_head (this : Leaderboard) :
  getTopTeam this = head (standings this).
Proof.
  unfold getTopTeam. destruct (standings this); reflexivity.
Qed.

Lemma ranksBefore_refl (e : LeaderboardEntry) : ranksBefore e e.
Proof.
  apply compareStandings_le_iff.
  assert (Hz : compareStandings e e = 0).
  { pose proof (compareStandings_antisym e e) as Hs.
    destruct (compareStandings e e); simpl in Hs;
      [reflexivity | |]; discriminate. }
  lia.
Qed.

Lemma ranksBefore_points (a b : LeaderboardEntry) :
  ranksBefore a b -> points b <= points a.
Proof. unfold ranksBefore. intros [Hp | [Hp _]]; lia. Qed.

Lemma stored_ranked (entry : LeaderboardEntry) (s : list LeaderboardEntry) :
  StronglySorted ranksBefore (stored entry s).
Proof.
  apply ranksBefore_inOrder, sort_StronglySorted.
  - apply compareStandings_total.
  - apply compareStandings_trans.
Qed.

Lemma ranked_head (s : list LeaderboardEntry) (top : LeaderboardEntry) :
  StronglySorted ranksBefore s -> head s = Some top ->
  forall e, In e s -> ranksBefore top e.
Proof.
  intros Hs Hhead e He.
  destruct Hs as [| x l _ Hx]; [discriminate |].
  simpl in Hhead. injection Hhead as ->.
  destruct He as [<- | He]; [apply ranksBefore_refl |].
  rewrite List.Forall_forall in Hx. apply Hx, He.
Qed.

Lemma ranked_split (s : list LeaderboardEntry) (k : nat) :
  StronglySorted ranksBefore s ->
  forall a b, In a (firstn k s) -> In b (skipn k s) -> ranksBefore a b.
Proof.
  intros Hs. revert k.
  induction Hs as [| x l Hl IH Hx]; intros k a b Ha Hb.
  - rewrite firstn_nil in Ha. contradiction.
  - destruct k as [| k]; simpl in Ha, Hb; [contradiction |].
    destruct Ha as [<- | Ha].
    + rewrite List.Forall_forall in Hx. apply Hx.
      eapply skipn_In_list. exact Hb.
    + eapply IH; eassumption.
Qed.

End Top.

(** X3.  After [addOrUpdateTeam] the table is ranked and [getTopTeam]
    returns its leader: an entry of the table that ranks before every
    entry and that no entry has more points than. *)
Theorem getTopTeam_addOrUpdateTeam `{StringBuiltins} (this : Leaderboard)
    (entry : LeaderboardEntry) :
  let this' := exec (addOrUpdateTeam entry) this in
  StronglySorted ranksBefore (standings this') /\
  exists top,
    getTopTeam this' = Some top /\
    In top (standings this') /\
    forall e, In e (standings this') ->
      ranksBefore top e /\ points e <= points top.
Proof.
  intros this'. unfold this'.
  rewrite getTopTeam_head, standings_addOrUpdateTeam.
  fold (stored entry (standings this)).
  pose proof (stored_ranked entry (standings this)) as Hs.
  pose proof (stored_In_entry entry (standings this)) as Hin.
  split; [exact Hs |].
  destruct (stored entry (standings this)) as [| top l] eqn:E;
    [contradiction |].
  exists top. split; [reflexivity |]. split; [left; reflexivity |].
  intros e He.
  assert (Hr : ranksBefore top e)
    by (eapply ranked_head; [exact Hs | reflexivity | exact He]).
  split; [exact Hr | apply ranksBefore_points, Hr].
Qed.

(** X4.  On a ranked table [getTopTeams n], for n not negative, returns the
    n best entries: the table is the returned entries followed by the
    others, there are n of them (all entries when the table has fewer),
    and each ranks before every entry that is not returned.  [getTopTeam]
    is the first of them. *)
Theorem getTopTeams_ranked `{StringBuiltins} (this : Leaderboard) (n : Z) :
  StronglySorted ranksBefore (standings this) ->
  0 <= n ->
  let top := result (getTopTeams n) this in
  exists others,
    standings this = top ++ others /\
    length top = Nat.min (Z.to_nat n) (length (standings this)) /\
    (forall a b, In a top -> In b others -> ranksBefore a b) /\
    (0 < n -> getTopTeam this = head top).
Proof.
  intros Hs Hn top.
  assert (Htop : top = firstn (Z.to_nat n) (standings this)).
  { unfold top, result, getTopTeams, bind, getStandings, ret. simpl.
    rewrite slice_from_zero.
    destruct (n <? 0) eqn:E; [apply Z.ltb_lt in E; lia | reflexivity]. }
  exists (skipn (Z.to_nat n) (standings this)). rewrite Htop.
  split; [symmetry; apply firstn_skipn |].
  split; [apply length_firstn |].
  split; [apply ranked_split, Hs |].
  intros Hpos. rewrite getTopTeam_head.
  destruct (Z.to_nat n) as [| k] eqn:E; [lia |].
  destruct (standings this); reflexivity.
Qed.

(** The two best of three ranked entries. *)
Lemma getTopTeams_ranked_witness :
  let this := mkLeaderboard 1
                [mkEntry "A" 2 2 0 0 4 0 4 6; mkEntry "B" 2 1 0 1 2 2 0 3;
                 mkEntry "C" 2 0 0 2 0 4 (-4) 0] None None None in
  exists others,
    standings this = result (getTopTeams 2) this ++ others /\
    length (result (getTopTeams 2) this)
      = Nat.min (Z.to_nat 2) (length (standings this)) /\
    (forall a b, In a (result (getTopTeams 2) this) -> In b others ->
       ranksBefore a b) /\
    (0 < 2 -> getTopTeam this = head (result (getTopTeams 2) this)).
Proof.
  apply (@getTopTeams_ranked asciiStrings
           (mkLeaderboard 1
              [mkEntry "A" 2 2 0 0 4 0 4 6; mkEntry "B" 2 1 0 1 2 2 0 3;
               mkEntry "C" 2 0 0 2 0 4 (-4) 0] None None None) 2).
  - repeat constructor; unfold ranksBefore; simpl; lia.
  - lia.
Defined.

(** ** Removing a team *)

Lemma StronglySorted_remove {A : Type} (R : A -> A -> Prop)
    (l1 l2 : list A) (x : A) :
  StronglySorted R (l1 ++ x :: l2) -> StronglySorted R (l1 ++ l2).
Proof.
  induction l1 as [| y l1 IH]; simpl; intros Hs.
  - inversion Hs; assumption.
  - inversion Hs as [| ? ? Hl Hy]; subst. constructor; [apply IH, Hl |].
    rewrite List.Forall_forall in *. intros z Hz. apply Hy.
    apply in_app_or in Hz. apply in_or_app.
    destruct Hz as [Hz | Hz]; [left | right; right]; exact Hz.
Qed.

Lemma find_remove {A : Type} (p : A -> bool) (l1 l2 : list A) (x : A) :
  p x = false -> find p (l1 ++ x :: l2) = find p (l1 ++ l2).
Proof.
  intros Hx. induction l1 as [| y l1 IH]; simpl.
  - rewrite Hx. reflexivity.
  - destruct (p y); [reflexivity | exact IH].
Qed.

Lemma app_cons_eq_snoc {A : Type} (l1 l2 l : list A) (x : A) :
  l1 ++ x :: l2 = l ++ [x] -> ~ In x l -> l2 = [] /\ l1 = l.
Proof.
  intros Heq Hnot.
  destruct l2 as [| z l2].
  - split; [reflexivity |]. apply app_inj_tail in Heq. apply Heq.
  - exfalso. apply Hnot.
    destruct (exists_last (l := z :: l2)) as (l2' & w & Hw);
      [discriminate |].
    rewrite Hw in Heq.
    replace (l1 ++ x :: l2' ++ [w]) with ((l1 ++ x :: l2') ++ [w])
      in Heq by (rewrite <- app_assoc; reflexivity).
    apply app_inj_tail in Heq. destruct Heq as [<- _].
    apply in_or_app. right. left. reflexivity.
Qed.

Section SortRemove.
Context {A : Type} (comparefn : A -> A -> Z).
Hypothesis comparefn_antisym :
  forall a b, Z.sgn (comparefn b a) = - Z.sgn (comparefn a b).
Hypothesis comparefn_trans :
  forall a b c, comparefn a b <= 0 -> comparefn b c <= 0 -> comparefn a c <= 0.

Lemma comparefn_total_of_antisym (a b : A) :
  0 < comparefn a b -> comparefn b a <= 0.
Proof.
  intros Hpos. pose proof (comparefn_antisym a b) as Hs.
  destruct (comparefn a b), (comparefn b a); simpl in Hs;
    try discriminate; lia.
Qed.

(** Sorting with one more element at the end and taking that element out
    again gives the sorted list. *)
Lemma sort_snoc_remove (s l1 l2 : list A) (e : A) :
  ~ In e s ->
  sort comparefn (s ++ [e]) = l1 ++ e :: l2 ->
  l1 ++ l2 = sort comparefn s.
Proof.
  intros Hnot Hsort.
  apply (sort_is_the_stable_sort comparefn comparefn_antisym comparefn_trans).
  - apply (StronglySorted_remove _ l1 l2 e). rewrite <- Hsort.
    apply sort_StronglySorted;
      [exact comparefn_total_of_antisym | exact comparefn_trans].
  - intros x.
    pose proof (sort_stable comparefn comparefn_antisym comparefn_trans
                  x (s ++ [e])) as Hst.
    rewrite Hsort, !List.filter_app in Hst. cbn [List.filter] in Hst.
    rewrite List.filter_app.
    destruct (tied comparefn x e).
    + apply app_cons_eq_snoc in Hst.
      * destruct Hst as [-> <-]. apply app_nil_r.
      * intros Hin. apply List.filter_In in Hin. apply Hnot, Hin.
    + rewrite app_nil_r in Hst. exact Hst.
Qed.

End SortRemove.

Section Remove.
Context `{StringBuiltins}.

Lemma exec_addOrUpdateTeam (entry : LeaderboardEntry) (this : Leaderboard) :
  exec (addOrUpdateTeam entry) this
  = exec (setStandings (stored entry (standings this))) this.
Proof.
  unfold addOrUpdateTeam, stored, upserted, exec, bind, getStandings. simpl.
  destruct (0 <=? findIndex (sameTeam (teamName entry)) (standings this));
    reflexivity.
Qed.

Lemma removeTeam_cases (name : string) (this : Leaderboard) :
  (Forall (fun e => sameTeam name e = false) (standings this) /\
   removeTeam name this = (false, this)) \/
  (exists l1 x l2,
     standings this = l1 ++ x :: l2 /\
     Forall (fun e => sameTeam name e = false) l1 /\
     sameTeam name x = true /\
     removeTeam name this = (true, exec (setStandings (l1 ++ l2)) this)).
Proof.
  destruct (first_match_split (sameTeam name) (standings this))
    as [Hall | (l1 & x & l2 & Hs & Hall & Hx)].
  - left. split; [exact Hall | apply removeTeam_absent, Hall].
  - right. exists l1, x, l2. repeat split; try assumption.
    eapply removeTeam_present; eassumption.
Qed.

End Remove.

(** X5.  [removeTeam] does not sort, and need not: a ranked table stays
    ranked.  A table with one entry per team stays one; every entry left
    was in the table; the number of entries falls by one when the call
    returns true and stays when it returns false; and the lookup of every
    other team returns what it returned before. *)
Theorem removeTeam_keeps `{StringBuiltins} (this : Leaderboard)
    (name : string) :
  let this' := exec (removeTeam name) this in
  (StronglySorted ranksBefore (standings this) ->
   StronglySorted ranksBefore (standings this')) /\
  (uniqueTeams (standings this) -> uniqueTeams (standings this')) /\
  (forall e, In e (standings this') -> In e (standings this)) /\
  getTeamCount this'
    = getTeamCount this - (if result (removeTeam name) this then 1 else 0) /\
  (forall other, toLowerCase other <> toLowerCase name ->
     result (getTeamStanding other) this'
     = result (getTeamStanding other) this).
Proof.
  intros this'. unfold this', exec, result, getTeamCount.
  destruct (removeTeam_cases name this)
    as [[_ ->] | (l1 & x & l2 & Hs & _ & Hx & ->)]; simpl.
  - repeat split; auto. lia.
  - rewrite Hs. repeat split.
    + apply StronglySorted_remove.
    + unfold uniqueTeams. rewrite !map_app. simpl.
      apply List.NoDup_remove_1.
    + intros e He. apply in_app_or in He. apply in_or_app.
      destruct He as [He | He]; [left | right; right]; exact He.
    + rewrite !length_app. simpl. lia.
    + intros other Hne.
      unfold getTeamStanding, bind, getStandings, ret. simpl.
      symmetry. apply find_remove.
      apply sameTeam_false_iff. apply sameTeam_iff in Hx. congruence.
Qed.

(** X6.  Adding a team that has no entry and removing it again leaves the
    table as [sortStandings] would leave it: [removeTeam] returns true and
    the leaderboard is the one with the old entries, sorted. *)
Theorem removeTeam_addOrUpdateTeam `{StringBuiltins} (this : Leaderboard)
    (entry : LeaderboardEntry) :
  result (getTeamStanding (teamName entry)) this = None ->
  removeTeam (teamName entry) (exec (addOrUpdateTeam entry) this)
  = (true, exec sortStandings this).
Proof.
  rewrite result_getTeamStanding. intros Hnone.
  assert (Hall : Forall (fun e => sameTeam (teamName entry) e = false)
                   (standings this)).
  { apply List.Forall_forall. intros e He.
    eapply find_none in Hnone; eassumption. }
  destruct (removeTeam_cases (teamName entry)
              (exec (addOrUpdateTeam entry) this))
    as [[Habsent _] | (l1 & x & l2 & Hs & Hl1 & Hx & ->)].
  - exfalso. rewrite List.Forall_forall in Habsent.
    rewrite standings_addOrUpdateTeam in Habsent.
    specialize (Habsent entry (stored_In_entry entry (standings this))).
    rewrite sameTeam_self in Habsent. discriminate.
  - rewrite standings_addOrUpdateTeam in Hs.
    rewrite (upserted_append entry _ Hall) in Hs.
    assert (Hnot : ~ In entry (standings this)).
    { intros Hin. rewrite List.Forall_forall in Hall.
      specialize (Hall entry Hin). rewrite sameTeam_self in Hall.
      discriminate. }
    assert (Hxe : x = entry).
    { assert (Hin : In x (sort compareStandings (standings this ++ [entry])))
        by (rewrite Hs; apply in_or_app; right; left; reflexivity).
      apply sort_In in Hin. apply in_app_or in Hin.
      destruct Hin as [Hin | [Heq | []]]; [| congruence].
      rewrite List.Forall_forall in Hall. rewrite (Hall x Hin) in Hx.
      discriminate. }
    subst x.
    rewrite (sort_snoc_remove compareStandings compareStandings_antisym
               compareStandings_trans _ _ _ _ Hnot Hs).
    rewrite exec_addOrUpdateTeam. reflexivity.
Qed.

(** Cercle added to a table with Ajax and Brugge, and removed again. *)
Lemma removeTeam_addOrUpdateTeam_witness :
  let this := mkLeaderboard 1
                [zeroEntry "Brugge"; mkEntry "Ajax" 1 1 0 0 3 1 2 3]
                None None None in
  removeTeam "Cercle"
    (exec (addOrUpdateTeam (mkEntry "Cercle" 1 0 1 0 1 1 0 1)) this)
  = (true, exec sortStandings this).
Proof.
  apply (removeTeam_addOrUpdateTeam
           (mkLeaderboard 1
              [zeroEntry "Brugge"; mkEntry "Ajax" 1 1 0 0 3 1 2 3]
              None None None)
           (mkEntry "Cercle" 1 0 1 0 1 1 0 1)).
  reflexivity.
Defined.

(** ** Replacing the table *)

(** X7.  [updateStandings] replaces the table by the given entries in
    ranked order: the new table is a rearrangement of the given entries
    (entries of one team twice are all kept) in which every entry ranks
    before every later one; the table that was there plays no role, and
    the other attributes of the leaderboard are left alone.  Updating with
    the table that is there already changes nothing further. *)
Theorem updateStandings_ranked `{StringBuiltins} (this : Leaderboard)
    (newStandings : list LeaderboardEntry) :
  let this' := exec (updateStandings newStandings) this in
  Permutation newStandings (standings this') /\
  StronglySorted ranksBefore (standings this') /\
  getTeamCount this' = Z.of_nat (length newStandings) /\
  (forall other : Leaderboard,
     standings (exec (updateStandings newStandings) other)
     = standings this') /\
  (divisionId this' = divisionId this /\ season this' = season this /\
   tournamentId this' = tournamentId this /\ cupId this' = cupId this) /\
  exec (updateStandings (standings this')) this' = this'.
Proof.
  intros this'.
  assert (Hs : forall t : Leaderboard,
            exec (updateStandings newStandings) t
            = mkLeaderboard (divisionId t)
                (sort compareStandings newStandings)
                (season t) (tournamentId t) (cupId t))
    by reflexivity.
  unfold this', getTeamCount. rewrite !Hs. simpl.
  split; [apply sort_Permutation |].
  split.
  { apply ranksBefore_inOrder, sort_StronglySorted.
    - apply compareStandings_total.
    - apply compareStandings_trans. }
  split; [rewrite sort_length; reflexivity |].
  split; [reflexivity |].
  split; [repeat split |].
  unfold updateStandings, exec, bind, setStandings, sortStandings,
    getStandings. simpl. f_equal.
  apply sort_idempotent, compareStandings_total.
Qed.

(** ** The validators *)

Section Validators.

Lemma checkEntry_firstBadField (index : nat) (e : LeaderboardEntry) :
  checkEntry index (entryToJson e)
  = match firstBadField e with
    | None => Returned tt
    | Some field => Threw (fieldMessage index field)
    end.
Proof.
  destruct e as [name pl w d l gf ga gd pts].
  unfold firstBadField, checkEntry, checkCounter, entryToJson. cbn.
  destruct name as [| c name]; cbn; [reflexivity |].
  repeat
    match goal with
    | |- context [?x <? 0] => destruct (x <? 0); cbn; [reflexivity |]
    end.
  reflexivity.
Qed.

Lemma firstBadField_wellFormed (e : LeaderboardEntry) :
  firstBadField e = None <-> wellFormedEntry e.
Proof.
  destruct e as [name pl w d l gf ga gd pts].
  unfold firstBadField, wellFormedEntry. cbn.
  destruct name as [| c name];
    [split; [discriminate | intros [Hn _]; congruence] |].
  repeat
    match goal with
    | |- context [?x <? 0] =>
        destruct (Z.ltb_spec x 0);
        [split; [discriminate | intros ?; lia] |]
    end.
  split; [| reflexivity]. intros _. repeat split; try lia. discriminate.
Qed.

Lemma forEachEntry_wellFormed_prefix (l1 : list LeaderboardEntry)
    (rest : list JsValue) (index : nat) :
  Forall wellFormedEntry l1 ->
  forEachEntry index (map entryToJson l1 ++ rest)
  = forEachEntry (index + length l1) rest.
Proof.
  intros Hall. revert index.
  induction Hall as [| e l1 He _ IH]; intros index; simpl.
  - f_equal. lia.
  - rewrite checkEntry_firstBadField.
    apply firstBadField_wellFormed in He. rewrite He. simpl.
    rewrite IH. f_equal. lia.
Qed.

Lemma checkEntry_not_object (index : nat) (v : JsValue) :
  (forall properties, v <> JsObject properties) ->
  exists message, checkEntry index v = Threw message.
Proof.
  intros Hv. destruct v; try (eexists; reflexivity).
  exfalso. eapply Hv. reflexivity.
Qed.

End Validators.

(** X8.  [isStandingsValid] accepts the JSON value of a table exactly when
    every entry has a team name that is not empty and no negative played,
    won, drawn, lost, goalsFor, goalsAgainst or points.  It asks nothing
    else: the goal difference may be negative, and neither the sums of the
    counters nor the names being different are checked. *)
Theorem isStandingsValid_table (s : list LeaderboardEntry) :
  isStandingsValid (standingsToJson s) = Returned tt <->
  Forall wellFormedEntry s.
Proof.
  unfold isStandingsValid, standingsToJson.
  destruct (forEachEntry_entryToJson s 0) as [[Hs ->] | [Hs [m ->]]].
  - split; [intros _; exact Hs | reflexivity].
  - split; [discriminate | contradiction].
Qed.

(** X9.  [isStandingsValid] reports the first thing that is wrong: when the
    entries in front of an entry are well formed and the entry is not, the
    error names the index of that entry and the first of its fields, in the
    order teamName, played, won, drawn, lost, goalsFor, goalsAgainst,
    points, that fails its check, whatever comes after the entry. *)
Theorem isStandingsValid_first_error (l1 l2 : list LeaderboardEntry)
    (e : LeaderboardEntry) (field : string) :
  Forall wellFormedEntry l1 ->
  firstBadField e = Some field ->
  isStandingsValid (standingsToJson (l1 ++ e :: l2))
  = Threw (fieldMessage (length l1) field).
Proof.
  intros Hall Hbad. unfold isStandingsValid, standingsToJson.
  rewrite map_app. simpl map.
  rewrite forEachEntry_wellFormed_prefix by exact Hall.
  simpl. rewrite checkEntry_firstBadField, Hbad. reflexivity.
Qed.

(** A well-formed entry followed by one with a negative number of wins. *)
Lemma isStandingsValid_first_error_witness :
  isStandingsValid
    (standingsToJson [mkEntry "A" 1 1 0 0 3 1 2 3;
                      mkEntry "B" 1 (-1) 0 2 1 3 (-2) 0;
                      mkEntry EmptyString 0 0 0 0 0 0 0 0])
  = Threw "Entry 1: won must be a non-negative number".
Proof.
  apply (isStandingsValid_first_error
           [mkEntry "A" 1 1 0 0 3 1 2 3]
           [mkEntry EmptyString 0 0 0 0 0 0 0 0]
           (mkEntry "B" 1 (-1) 0 2 1 3 (-2) 0) "won").
  - repeat constructor; simpl; try lia. discriminate.
  - reflexivity.
Defined.

(** X10.  [isStandingsValid] never accepts an array with an element that is
    not an object: [undefined] and [null] make the read of [teamName]
    throw, and a boolean, a number, a string or an array has no team
    name. *)
Theorem isStandingsValid_not_object (entries : list JsValue) (v : JsValue) :
  In v entries ->
  (forall properties, v <> JsObject properties) ->
  exists message, isStandingsValid (JsArray entries) = Threw message.
Proof.
  intros Hin Hv. unfold isStandingsValid. generalize 0%nat.
  induction entries as [| entry rest IH]; intros index; [contradiction |].
  simpl.
  destruct Hin as [-> | Hin].
  - destruct (checkEntry_not_object index v Hv) as [m ->].
    eexists. reflexivity.
  - destruct (checkEntry index entry); simpl;
      [apply IH, Hin | eexists; reflexivity].
Qed.

(** A table followed by [null]. *)
Lemma isStandingsValid_not_object_witness :
  exists message,
    isStandingsValid
      (JsArray [entryToJson (mkEntry "A" 1 1 0 0 3 1 2 3); JsNull])
    = Threw message.
Proof.
  apply (isStandingsValid_not_object
           [entryToJson (mkEntry "A" 1 1 0 0 3 1 2 3); JsNull] JsNull).
  - right. left. reflexivity.
  - discriminate.
Defined.

Section ValidAfterMatch.
Context `{StringBuiltins}.

Lemma createEntryFromMatch_wellFormed (name : string)
    (existing : option LeaderboardEntry) (isHome : bool) (hs as_ : Z) :
  0 <= hs -> 0 <= as_ ->
  wellFormedEntry (baseEntryOf name existing) ->
  wellFormedEntry (createEntryFromMatch name existing isHome hs as_).
Proof.
  intros Hhs Has.
  unfold createEntryFromMatch, wellFormedEntry, baseEntryOf.
  destruct isHome;
    (destruct (_ >? _); [| destruct (_ =? _)]); simpl;
    intros (Hn & ? & ? & ? & ? & ? & ? & ?);
    (split; [exact Hn | lia]).
Qed.

Lemma applyTeamResult_wellFormed (name : string) (isHome : bool)
    (hs as_ : Z) (this : Leaderboard) :
  0 <= hs -> 0 <= as_ -> name <> EmptyString ->
  Forall wellFormedEntry (standings this) ->
  Forall wellFormedEntry
    (standings (exec (applyTeamResult name isHome hs as_) this)).
Proof.
  intros Hhs Has Hname Hall. rewrite standings_applyTeamResult.
  apply stored_Forall; [exact Hall |].
  apply createEntryFromMatch_wellFormed; try assumption.
  destruct (find (sameTeam name) (standings this)) as [e |] eqn:Ef; simpl.
  - apply find_some in Ef. rewrite List.Forall_forall in Hall.
    apply Hall, Ef.
  - unfold wellFormedEntry. simpl. split; [exact Hname | lia].
Qed.

End ValidAfterMatch.

(** X11.  A table that [isStandingsValid] accepts is still accepted after
    a match result with two scores that are not negative and two team
    names that are not empty has been applied to it. *)
Theorem applyMatchResult_stays_valid `{StringBuiltins} (this : Leaderboard)
    (home away : string) (hs as_ : Z) :
  isStandingsValid (standingsToJson (standings this)) = Returned tt ->
  0 <= hs -> 0 <= as_ ->
  home <> EmptyString -> away <> EmptyString ->
  isStandingsValid
    (standingsToJson
       (standings (exec (applyMatchResult home away hs as_) this)))
  = Returned tt.
Proof.
  intros Hvalid Hhs Has Hhome Haway.
  assert (Hall : Forall wellFormedEntry (standings this)).
  { unfold isStandingsValid, standingsToJson in Hvalid.
    destruct (forEachEntry_entryToJson (standings this) 0)
      as [[Hs _] | [_ [m Hm]]]; [exact Hs | congruence]. }
  assert (Hall' : Forall wellFormedEntry
                    (standings
                       (exec (applyMatchResult home away hs as_) this))).
  { unfold applyMatchResult. rewrite exec_bind.
    apply applyTeamResult_wellFormed; try assumption.
    apply applyTeamResult_wellFormed; assumption. }
  unfold isStandingsValid, standingsToJson.
  destruct (forEachEntry_entryToJson
              (standings (exec (applyMatchResult home away hs as_) this)) 0)
    as [[_ ->] | [Hbad _]]; [reflexivity | contradiction].
Qed.

(** A valid table of one entry, and a 2-2 draw against a new team. *)
Lemma applyMatchResult_stays_valid_witness :
  isStandingsValid
    (standingsToJson
       (standings
          (exec (applyMatchResult "A" "B" 2 2)
             (mkLeaderboard 1 [mkEntry "A" 1 1 0 0 3 1 2 3]
                None None None))))
  = Returned tt.
Proof.
  apply (applyMatchResult_stays_valid
           (mkLeaderboard 1 [mkEntry "A" 1 1 0 0 3 1 2 3] None None None)
           "A" "B" 2 2);
    try lia; try discriminate.
  reflexivity.
Defined.

(** ** The kind of a leaderboard *)

(** X12.  A leaderboard that passes the [eitherTournamentOrCup] validator
    and whose ids are not 0 is of exactly one kind: of the getters
    [isDivisionLeaderboard], [isTournamentLeaderboard] and
    [isCupLeaderboard] exactly one is true.  The validator passes unless
    both ids are set and not 0.  With a tournament id of 0 and no cup the
    leaderboard passes and counts as a division leaderboard and as a
    tournament leaderboard at once. *)
Theorem leaderboard_kind (this : Leaderboard) :
  (eitherTournamentOrCup this = Returned tt ->
   tournamentId this <> Some 0 -> cupId this <> Some 0 ->
   (isDivisionLeaderboard this = true /\
    isTournamentLeaderboard this = false /\ isCupLeaderboard this = false) \/
   (isDivisionLeaderboard this = false /\
    isTournamentLeaderboard this = true /\ isCupLeaderboard this = false) \/
   (isDivisionLeaderboard this = false /\
    isTournamentLeaderboard this = false /\ isCupLeaderboard this = true)) /\
  (eitherTournamentOrCup this = Returned tt <->
   ~ (truthyId (tournamentId this) = true /\ truthyId (cupId this) = true)) /\
  (tournamentId this = Some 0 -> cupId this = None ->
   eitherTournamentOrCup this = Returned tt /\
   isDivisionLeaderboard this = true /\
   isTournamentLeaderboard this = true).
Proof.
  unfold eitherTournamentOrCup, isDivisionLeaderboard,
    isTournamentLeaderboard, isCupLeaderboard, throwIf.
  destruct (tournamentId this) as [t |], (cupId this) as [c |]; simpl;
    try destruct (Z.eqb_spec t 0); try destruct (Z.eqb_spec c 0);
    subst; simpl;
    (split; [| split; [split |]]);
    try (intros; discriminate);
    try (intros; congruence);
    try (intros _ [Hf1 Hf2]; discriminate);
    try (intros Hnot; exfalso; apply Hnot; split; reflexivity);
    try (intros; repeat split; reflexivity);
    try (intros _ _ _; left; repeat split; reflexivity);
    try (intros _ _ _; right; left; repeat split; reflexivity);
    try (intros _ _ _; right; right; repeat split; reflexivity).
Qed.

(** A leaderboard of tournament 3 is a tournament leaderboard only. *)
Lemma leaderboard_kind_witness :
  let this := mkLeaderboard 1 [] None (Some 3) None in
  (isDivisionLeaderboard this = true /\
   isTournamentLeaderboard this = false /\ isCupLeaderboard this = false) \/
  (isDivisionLeaderboard this = false /\
   isTournamentLeaderboard this = true /\ isCupLeaderboard this = false) \/
  (isDivisionLeaderboard this = false /\
   isTournamentLeaderboard this = false /\ isCupLeaderboard this = true).
Proof.
  apply (proj1 (leaderboard_kind (mkLeaderboard 1 [] None (Some 3) None)));
    [reflexivity | discriminate | discriminate].
Defined.

(** ** The life of a match *)

Section MatchFacts.

Lemma completeMatch_returned (hs as_ : Z) (m m' : Match) :
  completeMatch hs as_ m = Returned m' ->
  status m = in_progress /\ 0 <= hs /\ 0 <= as_ /\
  m' = mkMatch (homeTeam m) (awayTeam m) (Some hs) (Some as_) completed.
Proof.
  unfold completeMatch, isInProgress, throwIf.
  destruct (status m); simpl; try discriminate.
  destruct (Z.ltb_spec hs 0), (Z.ltb_spec as_ 0); simpl; try discriminate.
  intros [= <-]. repeat split; assumption.
Qed.





End MatchFacts.

(** X13.  The getter [winner] of a match and the entries
    [createEntryFromMatch] builds from its scores agree.  After
    [completeMatch] has returned, [winner] is never [null]; when it names
    the home side the home score is the greater, the home team's entry
    gets won + 1 and points + 3 and the away team's lost + 1, and [loser]
    names the away side; the other way round when it names the away side;
    and when it is a draw the scores are equal, both entries get drawn + 1
    and points + 1, [isDraw] holds and there is no loser. *)
Theorem winner_credited (m0 m : Match) (hs as_ : Z)
    (homeName awayName : string)
    (homeEntry awayEntry : option LeaderboardEntry) :
  completeMatch hs as_ m0 = Returned m ->
  let bh := baseEntryOf homeName homeEntry in
  let ba := baseEntryOf awayName awayEntry in
  let rh := createEntryFromMatch homeName homeEntry true hs as_ in
  let ra := createEntryFromMatch awayName awayEntry false hs as_ in
  match winner m with
  | Some Home =>
      as_ < hs /\ loser m = Some Away /\ isDraw m = false /\
      won rh = won bh + 1 /\ points rh = points bh + 3 /\
      lost ra = lost ba + 1 /\ points ra = points ba
  | Some Away =>
      hs < as_ /\ loser m = Some Home /\ isDraw m = false /\
      won ra = won ba + 1 /\ points ra = points ba + 3 /\
      lost rh = lost bh + 1 /\ points rh = points bh
  | Some Draw =>
      hs = as_ /\ loser m = None /\ isDraw m = true /\
      drawn rh = drawn bh + 1 /\ points rh = points bh + 1 /\
      drawn ra = drawn ba + 1 /\ points ra = points ba + 1
  | None => False
  end.
Proof.
  intros Hcomplete bh ba rh ra.
  apply completeMatch_returned in Hcomplete.
  destruct Hcomplete as (_ & _ & _ & ->).
  pose proof (createEntryFromMatch_credited homeName homeEntry true hs as_)
    as (_ & _ & _ & _ & _ & Hhw & Hhd & Hhl).
  pose proof (createEntryFromMatch_credited awayName awayEntry false hs as_)
    as (_ & _ & _ & _ & _ & Haw & Had & Hal).
  fold bh rh in Hhw, Hhd, Hhl. fold ba ra in Haw, Had, Hal.
  unfold loser, isDraw, winner, hasResult, isCompleted. simpl.
  destruct (Z.gtb_spec hs as_) as [Hgt | Hle].
  - destruct (Hhw Hgt) as (? & ? & _). destruct (Hal Hgt) as (? & ? & _).
    repeat split; assumption.
  - destruct (Z.gtb_spec as_ hs) as [Hgt | Hle'].
    + destruct (Haw Hgt) as (? & ? & _). destruct (Hhl Hgt) as (? & ? & _).
      repeat split; assumption.
    + assert (Heq : hs = as_) by lia.
      destruct (Hhd Heq) as (? & ? & _).
      destruct (Had (eq_sym Heq)) as (? & ? & _).
      repeat split; assumption.
Qed.

(** A match in progress completed 3-1, and the entries of two new teams. *)
Lemma winner_credited_witness :
  let m := mkMatch "A" "B" (Some 3) (Some 1) completed in
  match winner m with
  | Some Home =>
      1 < 3 /\ loser m = Some Away /\ isDraw m = false /\
      won (createEntryFromMatch "A" None true 3 1)
        = won (baseEntryOf "A" None) + 1 /\
      points (createEntryFromMatch "A" None true 3 1)
        = points (baseEntryOf "A" None) + 3 /\
      lost (createEntryFromMatch "B" None false 3 1)
        = lost (baseEntryOf "B" None) + 1 /\
      points (createEntryFromMatch "B" None false 3 1)
        = points (baseEntryOf "B" None)
  | _ => False
  end.
Proof.
  exact (winner_credited (mkMatch "A" "B" None None in_progress)
           (mkMatch "A" "B" (Some 3) (Some 1) completed) 3 1
           "A" "B" None None eq_refl).
Defined.



(** ** The totals of the table *)

Section Totals.
Context `{StringBuiltins}.
Variable f : LeaderboardEntry -> Z.

Lemma total_app (l1 l2 : list LeaderboardEntry) :
  total f (l1 ++ l2) = total f l1 + total f l2.
Proof.
  unfold total. induction l1 as [| x l1 IH]; simpl; [reflexivity |].
  rewrite IH. lia.
Qed.

Lemma total_Permutation (l1 l2 : list LeaderboardEntry) :
  Permutation l1 l2 -> total f l1 = total f l2.
Proof.
  unfold total.
  induction 1 as [| x l1 l2 _ IH | x y l | l1 l2 l3 _ IH1 _ IH2]; simpl;
    lia.
Qed.

Lemma total_stored (entry : LeaderboardEntry) (s : list LeaderboardEntry) :
  total f (stored entry s)
  = total f s + f entry
    - match find (sameTeam (teamName entry)) s with
      | Some x => f x
      | None => 0
      end.
Proof.
  unfold stored.
  rewrite <- (total_Permutation _ _ (sort_Permutation _ (upserted entry s))).
  destruct (upserted_cases entry s)
    as [[Hall ->] | (l1 & x & l2 & -> & Hall & Hx & ->)].
  - rewrite (find_none_Forall _ _ Hall), total_app.
    unfold total. simpl. lia.
  - rewrite (find_first_match _ _ _ _ Hall Hx), !total_app.
    unfold total. simpl. lia.
Qed.

Hypothesis f_zero : forall name, f (zeroEntry name) = 0.

Lemma total_applyTeamResult (name : string) (isHome : bool) (hs as_ : Z)
    (this : Leaderboard) :
  let existing := find (sameTeam name) (standings this) in
  total f (standings (exec (applyTeamResult name isHome hs as_) this))
  = total f (standings this)
    + f (createEntryFromMatch name existing isHome hs as_)
    - f (baseEntryOf name existing).
Proof.
  intros existing. rewrite standings_applyTeamResult, total_stored.
  fold existing.
  rewrite createEntryFromMatch_teamName.
  unfold baseEntryOf.
  destruct existing as [e |] eqn:Ef.
  - unfold existing in Ef.
    assert (Hsame : find (sameTeam (teamName e)) (standings this) = Some e).
    { apply find_some in Ef as Hfound.
      destruct Hfound as [_ Hkey]. apply sameTeam_iff in Hkey.
      rewrite <- Ef. clear Ef.
      induction (standings this) as [| y l IH]; simpl; [reflexivity |].
      rewrite (sameTeam_key (teamName e) name y Hkey).
      destruct (sameTeam name y); [reflexivity | exact IH]. }
    rewrite Hsame. reflexivity.
  - unfold existing in Ef.
    assert (Hnone : find (sameTeam (teamName (zeroEntry name)))
                      (standings this) = None) by exact Ef.
    rewrite Hnone, f_zero. lia.
Qed.

End Totals.

(** X15.  Applying a match result adds to the totals of the table what the
    match brought, whatever the table and the names: both scores to the
    total of goalsFor and to the total of goalsAgainst, so that the total
    goals for and against stay in balance; 2 to the total of played; and
    to the total of points 3 when the scores differ and 2 when they are
    equal. *)
Theorem totals_after_match `{StringBuiltins} (this : Leaderboard)
    (home away : string) (hs as_ : Z) :
  let s := standings this in
  let s' := standings (exec (applyMatchResult home away hs as_) this) in
  total goalsFor s' = total goalsFor s + hs + as_ /\
  total goalsAgainst s' = total goalsAgainst s + hs + as_ /\
  total goalsFor s' - total goalsAgainst s'
    = total goalsFor s - total goalsAgainst s /\
  total played s' = total played s + 2 /\
  total points s' = total points s + (if hs =? as_ then 2 else 3).
Proof.
  intros s s'. unfold s', applyMatchResult. rewrite exec_bind.
  set (this1 := exec (applyTeamResult home true hs as_) this).
  assert (Hstep : forall f : LeaderboardEntry -> Z,
            (forall name, f (zeroEntry name) = 0) ->
            total f (standings (exec (applyTeamResult away false hs as_)
                                  this1))
            = total f s
              + (f (createEntryFromMatch home (find (sameTeam home) s)
                      true hs as_)
                 - f (baseEntryOf home (find (sameTeam home) s)))
              + (f (createEntryFromMatch away
                      (find (sameTeam away) (standings this1)) false hs as_)
                 - f (baseEntryOf away
                        (find (sameTeam away) (standings this1))))).
  { intros f Hf. rewrite (total_applyTeamResult f Hf). unfold this1.
    rewrite (total_applyTeamResult f Hf). fold s. lia. }
  simpl result.
  pose proof (createEntryFromMatch_credited home (find (sameTeam home) s)
                true hs as_)
    as (_ & Hp1 & Hf1 & Ha1 & _ & Hw1 & Hd1 & Hl1).
  pose proof (createEntryFromMatch_credited away
                (find (sameTeam away) (standings this1)) false hs as_)
    as (_ & Hp2 & Hf2 & Ha2 & _ & Hw2 & Hd2 & Hl2).
  rewrite !Hstep by reflexivity.
  repeat split; try lia.
  destruct (Z.eqb_spec hs as_) as [Heq | Hne].
  - destruct (Hd1 Heq) as (_ & ? & _).
    destruct (Hd2 (eq_sym Heq)) as (_ & ? & _). lia.
  - destruct (Z.lt_trichotomy hs as_) as [Hlt | [Heq | Hgt]];
      [| contradiction |].
    + destruct (Hl1 Hlt) as (_ & ? & _). destruct (Hw2 Hlt) as (_ & ? & _).
      lia.
    + destruct (Hw1 Hgt) as (_ & ? & _). destruct (Hl2 Hgt) as (_ & ? & _).
      lia.
Qed.

(** ** Storing an entry twice *)

(** X16.  In a table with one entry per team [addOrUpdateTeam] is
    idempotent: storing the same entry a second time changes nothing. *)
Theorem addOrUpdateTeam_idempotent `{StringBuiltins} (this : Leaderboard)
    (entry : LeaderboardEntry) :
  uniqueTeams (standings this) ->
  exec (addOrUpdateTeam entry) (exec (addOrUpdateTeam entry) this)
  = exec (addOrUpdateTeam entry) this.
Proof.
  intros Hu. rewrite !exec_addOrUpdateTeam.
  unfold exec, setStandings. simpl. f_equal.
  set (s1 := stored entry (standings this)).
  assert (Hu1 : uniqueTeams s1) by apply stored_unique, Hu.
  assert (Hup : upserted entry s1 = s1).
  { destruct (upserted_cases entry s1)
      as [[Hall _] | (l1 & x & l2 & Hs & Hall & Hx & ->)].
    - exfalso. rewrite List.Forall_forall in Hall.
      specialize (Hall entry (stored_In_entry entry (standings this))).
      rewrite sameTeam_self in Hall. discriminate.
    - assert (Hfind : find (sameTeam (teamName entry)) s1 = Some entry).
      { apply find_unique;
          [exact Hu1 | apply stored_In_entry | apply sameTeam_self]. }
      rewrite Hs, (find_first_match _ _ _ _ Hall Hx) in Hfind.
      injection Hfind as ->. symmetry. exact Hs. }
  unfold stored at 1. rewrite Hup. unfold s1, stored.
  apply sort_idempotent, compareStandings_total.
Qed.

(** An entry for AJAX stored twice in a table with Ajax and Brugge. *)
Lemma addOrUpdateTeam_idempotent_witness :
  let this := mkLeaderboard 1
                [mkEntry "Ajax" 1 1 0 0 3 1 2 3; zeroEntry "Brugge"]
                None None None in
  let entry := mkEntry "AJAX" 2 1 0 1 3 2 1 3 in
  exec (addOrUpdateTeam entry) (exec (addOrUpdateTeam entry) this)
  = exec (addOrUpdateTeam entry) this.
Proof.
  apply (addOrUpdateTeam_idempotent
           (mkLeaderboard 1
              [mkEntry "Ajax" 1 1 0 0 3 1 2 3; zeroEntry "Brugge"]
              None None None)
           (mkEntry "AJAX" 2 1 0 1 3 2 1 3)).
  unfold uniqueTeams. distinct_names.
Defined.

(** ** The order of the match results *)

Lemma createEntryFromMatch_existing (name : string) (b : LeaderboardEntry)
    (isHome : bool) (hs as_ : Z) :
  let own := if isHome then hs else as_ in
  let opp := if isHome then as_ else hs in
  createEntryFromMatch name (Some b) isHome hs as_
  = mkEntry (teamName b) (played b + 1)
      (won b + (if own >? opp then 1 else 0))
      (drawn b + (if own >? opp then 0 else if own =? opp then 1 else 0))
      (lost b + (if own >? opp then 0 else if own =? opp then 0 else 1))
      (goalsFor b + own) (goalsAgainst b + opp)
      (goalsFor b + own - (goalsAgainst b + opp))
      (points b + (if own >? opp then 3 else if own =? opp then 1 else 0)).
Proof.
  intros own opp. unfold createEntryFromMatch. fold own opp.
  destruct (own >? opp); [| destruct (own =? opp)];
    unfold setPoints, setWon, setDrawn, setLost, setGoalDifference,
      setGoalsAgainst, setGoalsFor, setPlayed; simpl;
    f_equal; lia.
Qed.

Lemma createEntryFromMatch_commute (n1 n2 : string) (b : LeaderboardEntry)
    (i1 i2 : bool) (x1 y1 x2 y2 : Z) :
  createEntryFromMatch n2
    (Some (createEntryFromMatch n1 (Some b) i1 x1 y1)) i2 x2 y2
  = createEntryFromMatch n1
      (Some (createEntryFromMatch n2 (Some b) i2 x2 y2)) i1 x1 y1.
Proof.
  rewrite (createEntryFromMatch_existing n1 b i1 x1 y1).
  rewrite (createEntryFromMatch_existing n2 b i2 x2 y2).
  rewrite !createEntryFromMatch_existing. cbv zeta. simpl.
  f_equal; lia.
Qed.

Section Order.
Context `{StringBuiltins}.

Lemma find_sameTeam_key (n1 n2 : string) (s : list LeaderboardEntry) :
  toLowerCase n1 = toLowerCase n2 ->
  find (sameTeam n1) s = find (sameTeam n2) s.
Proof.
  intros Hk. induction s as [| y l IH]; simpl; [reflexivity |].
  rewrite (sameTeam_key n1 n2 y Hk).
  destruct (sameTeam n2 y); [reflexivity | exact IH].
Qed.

Lemma find_applyTeamResult (name team : string) (isHome : bool)
    (hs as_ : Z) (this : Leaderboard) :
  uniqueTeams (standings this) ->
  find (sameTeam name)
    (standings (exec (applyTeamResult team isHome hs as_) this))
  = lookupAfter name team isHome hs as_
      (find (sameTeam name) (standings this)).
Proof.
  intros Hu. rewrite standings_applyTeamResult. unfold lookupAfter.
  destruct (String.eqb_spec (toLowerCase name) (toLowerCase team))
    as [Hk | Hk].
  - rewrite (find_sameTeam_key name team (standings this) Hk).
    apply stored_find_entry; [exact Hu |].
    rewrite createEntryFromMatch_key. exact Hk.
  - apply stored_find_other; [exact Hu |].
    rewrite createEntryFromMatch_key. exact Hk.
Qed.

Lemma unique_applyTeamResult (team : string) (isHome : bool) (hs as_ : Z)
    (this : Leaderboard) :
  uniqueTeams (standings this) ->
  uniqueTeams (standings (exec (applyTeamResult team isHome hs as_) this)).
Proof.
  intros Hu. rewrite standings_applyTeamResult. apply stored_unique, Hu.
Qed.

Lemma find_applyMatchResult (name home away : string) (hs as_ : Z)
    (this : Leaderboard) :
  uniqueTeams (standings this) ->
  find (sameTeam name)
    (standings (exec (applyMatchResult home away hs as_) this))
  = lookupAfter name away false hs as_
      (lookupAfter name home true hs as_
         (find (sameTeam name) (standings this))).
Proof.
  intros Hu. unfold applyMatchResult. rewrite exec_bind.
  rewrite find_applyTeamResult by apply unique_applyTeamResult, Hu.
  rewrite find_applyTeamResult by exact Hu. reflexivity.
Qed.

Lemma unique_applyMatchResult (home away : string) (hs as_ : Z)
    (this : Leaderboard) :
  uniqueTeams (standings this) ->
  uniqueTeams (standings (exec (applyMatchResult home away hs as_) this)).
Proof.
  intros Hu. unfold applyMatchResult. rewrite exec_bind.
  apply unique_applyTeamResult, unique_applyTeamResult, Hu.
Qed.

Lemma inOrder_applyMatchResult (home away : string) (hs as_ : Z)
    (this : Leaderboard) :
  StronglySorted (inOrder compareStandings)
    (standings (exec (applyMatchResult home away hs as_) this)).
Proof.
  rewrite standings_applyMatchResult. cbv zeta. unfold stored at 1.
  apply sort_StronglySorted.
  - apply compareStandings_total.
  - apply compareStandings_trans.
Qed.

(** Two shares of different matches commute on the lookup of a name. *)
Lemma lookupAfter_commute (name t1 t2 : string) (i1 i2 : bool)
    (x1 y1 x2 y2 : Z) (before : option LeaderboardEntry) :
  (toLowerCase t1 = toLowerCase t2 -> t1 = t2) ->
  lookupAfter name t2 i2 x2 y2 (lookupAfter name t1 i1 x1 y1 before)
  = lookupAfter name t1 i1 x1 y1 (lookupAfter name t2 i2 x2 y2 before).
Proof.
  intros Hspell. unfold lookupAfter.
  destruct (String.eqb_spec (toLowerCase name) (toLowerCase t1)) as [H1 | H1],
           (String.eqb_spec (toLowerCase name) (toLowerCase t2)) as [H2 | H2];
    try reflexivity.
  f_equal. destruct before as [b |].
  - apply createEntryFromMatch_commute.
  - assert (Heq : t1 = t2) by (apply Hspell; congruence). subst t2.
    apply (createEntryFromMatch_commute t1 t1 (zeroEntry t1)).
Qed.

(** The two shares of one match never touch the same lookup. *)
Lemma lookupAfter_disjoint (name home away : string) (i1 i2 : bool)
    (x1 y1 x2 y2 : Z) (before : option LeaderboardEntry) :
  toLowerCase home <> toLowerCase away ->
  lookupAfter name away i2 x2 y2 (lookupAfter name home i1 x1 y1 before)
  = lookupAfter name home i1 x1 y1 (lookupAfter name away i2 x2 y2 before).
Proof.
  intros Hne. unfold lookupAfter.
  destruct (String.eqb_spec (toLowerCase name) (toLowerCase home)) as [H1 | H1],
           (String.eqb_spec (toLowerCase name) (toLowerCase away)) as [H2 | H2];
    try reflexivity.
  congruence.
Qed.

(** A table with one entry per team is known by its lookups, up to the
    order of its entries. *)
Lemma unique_lookups_Permutation (s1 s2 : list LeaderboardEntry) :
  uniqueTeams s1 -> uniqueTeams s2 ->
  (forall name, find (sameTeam name) s1 = find (sameTeam name) s2) ->
  Permutation s1 s2.
Proof.
  intros Hu1 Hu2 Hsame.
  assert (Hsub : forall t1 t2 : list LeaderboardEntry,
            uniqueTeams t1 ->
            (forall name, find (sameTeam name) t1 = find (sameTeam name) t2) ->
            forall e, In e t1 -> In e t2).
  { intros t1 t2 Hu Hs e He.
    assert (Hf : find (sameTeam (teamName e)) t1 = Some e)
      by (apply find_unique; [exact Hu | exact He | apply sameTeam_self]).
    rewrite Hs in Hf. apply find_some in Hf. apply Hf. }
  apply Permutation.NoDup_Permutation.
  - eapply List.NoDup_map_inv. exact Hu1.
  - eapply List.NoDup_map_inv. exact Hu2.
  - intros e. split.
    + apply Hsub; assumption.
    + apply Hsub; [assumption | intros name; symmetry; apply Hsame].
Qed.

End Order.

(** X17.  The standings do not depend on the order in which two match
    results are applied.  In a table with one entry per team, for two
    matches each between two different teams, in which a team that plays
    in both is spelled the same way: applying the first and then the
    second, or the second and then the first, gives tables in which every
    lookup returns the same entry and which have the same entries; and in
    a locale that tells different names apart the two leaderboards are
    equal, the order of the entries included. *)
Theorem applyMatches_order `{StringBuiltins} (this : Leaderboard)
    (m1 m2 : MatchResult) :
  uniqueTeams (standings this) ->
  toLowerCase (mrHomeTeam m1) <> toLowerCase (mrAwayTeam m1) ->
  toLowerCase (mrHomeTeam m2) <> toLowerCase (mrAwayTeam m2) ->
  (forall t1 t2,
     In t1 [mrHomeTeam m1; mrAwayTeam m1] ->
     In t2 [mrHomeTeam m2; mrAwayTeam m2] ->
     toLowerCase t1 = toLowerCase t2 -> t1 = t2) ->
  let this12 := exec (applyMatches [m1; m2]) this in
  let this21 := exec (applyMatches [m2; m1]) this in
  (forall name,
     result (getTeamStanding name) this12
     = result (getTeamStanding name) this21) /\
  Permutation (standings this12) (standings this21) /\
  ((forall a b, localeCompare a b = 0 -> a = b) -> this12 = this21).
Proof.
  intros Hu Hd1 Hd2 Hspell this12 this21.
  assert (Hexec : forall (p q : MatchResult) (t : Leaderboard),
            exec (applyMatches [p; q]) t
            = exec (applyMatchResult (mrHomeTeam q) (mrAwayTeam q)
                      (mrHomeScore q) (mrAwayScore q))
                (exec (applyMatchResult (mrHomeTeam p) (mrAwayTeam p)
                         (mrHomeScore p) (mrAwayScore p)) t)).
  { intros p q t. simpl. rewrite !exec_bind. reflexivity. }
  unfold this12, this21. clear this12 this21. rewrite !Hexec.
  destruct m1 as [h1 a1 x1 y1], m2 as [h2 a2 x2 y2].
  cbn [mrHomeTeam mrAwayTeam mrHomeScore mrAwayScore] in *.
  set (t1 := exec (applyMatchResult h1 a1 x1 y1) this).
  set (t2 := exec (applyMatchResult h2 a2 x2 y2) this).
  assert (Hu1 : uniqueTeams (standings t1))
    by apply unique_applyMatchResult, Hu.
  assert (Hu2 : uniqueTeams (standings t2))
    by apply unique_applyMatchResult, Hu.
  assert (Hlook : forall name,
            find (sameTeam name)
              (standings (exec (applyMatchResult h2 a2 x2 y2) t1))
            = find (sameTeam name)
                (standings (exec (applyMatchResult h1 a1 x1 y1) t2))).
  { intros name.
    rewrite (find_applyMatchResult name h2 a2 x2 y2 t1 Hu1).
    rewrite (find_applyMatchResult name h1 a1 x1 y1 t2 Hu2).
    unfold t1, t2.
    rewrite (find_applyMatchResult name h1 a1 x1 y1 this Hu).
    rewrite (find_applyMatchResult name h2 a2 x2 y2 this Hu).
    set (o := find (sameTeam name) (standings this)).
    rewrite (lookupAfter_commute name a1 h2 false true x1 y1 x2 y2)
      by (apply Hspell; simpl; auto).
    rewrite (lookupAfter_commute name h1 h2 true true x1 y1 x2 y2)
      by (apply Hspell; simpl; auto).
    rewrite (lookupAfter_commute name a1 a2 false false x1 y1 x2 y2)
      by (apply Hspell; simpl; auto).
    rewrite (lookupAfter_commute name h1 a2 true false x1 y1 x2 y2)
      by (apply Hspell; simpl; auto).
    reflexivity. }
  assert (Hperm : Permutation
                    (standings (exec (applyMatchResult h2 a2 x2 y2) t1))
                    (standings (exec (applyMatchResult h1 a1 x1 y1) t2))).
  { apply unique_lookups_Permutation; try exact Hlook;
      apply unique_applyMatchResult; assumption. }
  split; [intros name; rewrite !result_getTeamStanding; apply Hlook |].
  split; [exact Hperm |].
  intros Hsep.
  assert (Hstand : standings (exec (applyMatchResult h2 a2 x2 y2) t1)
                   = standings (exec (applyMatchResult h1 a1 x1 y1) t2)).
  { apply (StronglySorted_Permutation_eq compareStandings);
      try apply inOrder_applyMatchResult; [| exact Hperm].
    intros a b Ha Hb Hab Hba.
    apply (NoDup_map_In_eq teamKey
             (standings (exec (applyMatchResult h2 a2 x2 y2) t1)));
      try assumption.
    - apply unique_applyMatchResult, Hu1.
    - unfold teamKey. f_equal. apply Hsep.
      apply compareStandings_zero, compareStandings_both; assumption. }
  assert (Hrec : forall (home away : string) (hs as_ : Z) (t : Leaderboard),
            exec (applyMatchResult home away hs as_) t
            = mkLeaderboard (divisionId t)
                (standings (exec (applyMatchResult home away hs as_) t))
                (season t) (tournamentId t) (cupId t)).
  { intros home away hs as_ t. unfold applyMatchResult, applyTeamResult.
    rewrite !exec_bind, !exec_addOrUpdateTeam. reflexivity. }
  rewrite (Hrec h2 a2 x2 y2 t1), (Hrec h1 a1 x1 y1 t2), Hstand.
  unfold t1, t2. rewrite (Hrec h1 a1 x1 y1 this), (Hrec h2 a2 x2 y2 this).
  reflexivity.
Qed.

(** Ajax beats Brugge 2-0 and draws 1-1 at Cercle, in either order. *)
Lemma applyMatches_order_witness :
  let this := mkLeaderboard 1 [mkEntry "Brugge" 1 1 0 0 3 1 2 3]
                None None None in
  let m1 := mkMatchResult "Ajax" "Brugge" 2 0 in
  let m2 := mkMatchResult "Cercle" "Ajax" 1 1 in
  exec (applyMatches [m1; m2]) this = exec (applyMatches [m2; m1]) this.
Proof.
  apply (@applyMatches_order asciiStrings
           (mkLeaderboard 1 [mkEntry "Brugge" 1 1 0 0 3 1 2 3]
              None None None)
           (mkMatchResult "Ajax" "Brugge" 2 0)
           (mkMatchResult "Cercle" "Ajax" 1 1)).
  - unfold uniqueTeams. distinct_names.
  - simpl. discriminate.
  - simpl. discriminate.
  - simpl. intros t1 t2 [<- | [<- | []]] [<- | [<- | []]]; simpl;
      intros Hk; try reflexivity; discriminate Hk.
  - exact asciiLocaleCompare_eq0.
Defined.

(** ** A league: a sequence of match results *)

Section League.
Context `{StringBuiltins}.

Lemma total_applyMatchResult (f : LeaderboardEntry -> Z) (home away : string)
    (hs as_ : Z) (this : Leaderboard) :
  (forall name, f (zeroEntry name) = 0) ->
  exists (exh exa : option LeaderboardEntry),
    total f (standings (exec (applyMatchResult home away hs as_) this))
    = total f (standings this)
      + (f (createEntryFromMatch home exh true hs as_)
         - f (baseEntryOf home exh))
      + (f (createEntryFromMatch away exa false hs as_)
         - f (baseEntryOf away exa)).
Proof.
  intros Hf. unfold applyMatchResult. rewrite exec_bind. simpl result.
  eexists. eexists.
  rewrite (total_applyTeamResult f Hf), (total_applyTeamResult f Hf).
  rewrite <- !Z.add_sub_assoc. reflexivity.
Qed.

(** What one match adds to the differences the league keeps constant. *)
Lemma balance_applyMatchResult (home away : string) (hs as_ : Z)
    (this : Leaderboard) :
  let s := standings this in
  let s' := standings (exec (applyMatchResult home away hs as_) this) in
  total played s' = total played s + 2 /\
  total goalsFor s' - total goalsAgainst s'
    = total goalsFor s - total goalsAgainst s /\
  total won s' - total lost s' = total won s - total lost s /\
  total points s' - (3 * total won s' + total drawn s')
    = total points s - (3 * total won s + total drawn s).
Proof.
  intros s s'. unfold s, s'.
  destruct (total_applyMatchResult played home away hs as_ this
              ltac:(reflexivity)) as (h1 & a1 & ->).
  destruct (total_applyMatchResult goalsFor home away hs as_ this
              ltac:(reflexivity)) as (h2 & a2 & ->).
  destruct (total_applyMatchResult goalsAgainst home away hs as_ this
              ltac:(reflexivity)) as (h3 & a3 & ->).
  destruct (total_applyMatchResult won home away hs as_ this
              ltac:(reflexivity)) as (h4 & a4 & ->).
  destruct (total_applyMatchResult lost home away hs as_ this
              ltac:(reflexivity)) as (h5 & a5 & ->).
  destruct (total_applyMatchResult points home away hs as_ this
              ltac:(reflexivity)) as (h6 & a6 & ->).
  destruct (total_applyMatchResult drawn home away hs as_ this
              ltac:(reflexivity)) as (h7 & a7 & ->).
  assert (Hc : forall (name : string) (ex : option LeaderboardEntry)
                 (isHome : bool),
            let b := baseEntryOf name ex in
            let r := createEntryFromMatch name ex isHome hs as_ in
            let own := if isHome then hs else as_ in
            let opp := if isHome then as_ else hs in
            played r - played b = 1 /\
            goalsFor r - goalsFor b = own /\
            goalsAgainst r - goalsAgainst b = opp /\
            won r - won b = (if opp <? own then 1 else 0) /\
            lost r - lost b = (if own <? opp then 1 else 0) /\
            drawn r - drawn b = (if own =? opp then 1 else 0) /\
            points r - points b
              = 3 * (won r - won b) + (drawn r - drawn b)).
  { intros name ex isHome b r own opp.
    pose proof (createEntryFromMatch_credited name ex isHome hs as_)
      as (_ & Hp & Hgf & Hga & _ & Hw & Hd & Hl).
    fold b r own opp in Hp, Hgf, Hga, Hw, Hd, Hl.
    destruct (Z.ltb_spec opp own), (Z.ltb_spec own opp),
             (Z.eqb_spec own opp); try lia;
      first [ destruct (Hw ltac:(lia)) as (? & ? & ? & ?); lia
            | destruct (Hl ltac:(lia)) as (? & ? & ? & ?); lia
            | destruct (Hd ltac:(lia)) as (? & ? & ? & ?); lia ]. }
  pose proof (Hc home h1 true) as (? & _). pose proof (Hc away a1 false) as (? & _).
  pose proof (Hc home h2 true) as (_ & ? & _).
  pose proof (Hc away a2 false) as (_ & ? & _).
  pose proof (Hc home h3 true) as (_ & _ & ? & _).
  pose proof (Hc away a3 false) as (_ & _ & ? & _).
  pose proof (Hc home h4 true) as (_ & _ & _ & ? & _).
  pose proof (Hc away a4 false) as (_ & _ & _ & ? & _).
  pose proof (Hc home h5 true) as (_ & _ & _ & _ & ? & _).
  pose proof (Hc away a5 false) as (_ & _ & _ & _ & ? & _).
  pose proof (Hc home h7 true) as (_ & _ & _ & _ & _ & ? & _).
  pose proof (Hc away a7 false) as (_ & _ & _ & _ & _ & ? & _).
  pose proof (Hc home h6 true) as (_ & _ & _ & Hw6 & _ & Hd6 & ?).
  pose proof (Hc away a6 false) as (_ & _ & _ & Hw6' & _ & Hd6' & ?).
  cbv zeta in *.
  destruct (Z.ltb_spec as_ hs), (Z.ltb_spec hs as_), (Z.eqb_spec hs as_),
           (Z.eqb_spec as_ hs); try lia.
Qed.

End League.

(** X18.  A league of any length keeps its books.  Starting from a table
    with one entry per team, after any sequence of match results the table
    still has one entry per team and, once a match has been applied, is
    ranked; the total of played has grown by twice the number of matches;
    and the total goals for less the total goals against, the total of
    wins less the total of losses, and the total of points less three
    times the wins and once the draws are what they were: from an empty
    table, as many goals scored as conceded, as many wins as losses, and
    three points a win and one a draw. *)
Theorem applyMatches_league `{StringBuiltins} (this : Leaderboard)
    (ms : list MatchResult) :
  uniqueTeams (standings this) ->
  let s := standings this in
  let s' := standings (exec (applyMatches ms) this) in
  uniqueTeams s' /\
  (ms <> [] -> StronglySorted ranksBefore s') /\
  total played s' = total played s + 2 * Z.of_nat (length ms) /\
  total goalsFor s' - total goalsAgainst s'
    = total goalsFor s - total goalsAgainst s /\
  total won s' - total lost s' = total won s - total lost s /\
  total points s' - (3 * total won s' + total drawn s')
    = total points s - (3 * total won s + total drawn s).
Proof.
  intros Hu s s'. unfold s, s'. clear s s'.
  assert (Hranked : forall (t : Leaderboard) (l : list MatchResult),
            l <> [] ->
            StronglySorted ranksBefore (standings (exec (applyMatches l) t))).
  { intros t l. revert t.
    induction l as [| m l IH]; intros t Hne; [contradiction |].
    simpl. rewrite exec_bind. simpl result.
    destruct l as [| m' l].
    - simpl. apply ranksBefore_inOrder, inOrder_applyMatchResult.
    - apply IH. discriminate. }
  split; [| split; [apply Hranked |]].
  - revert this Hu. induction ms as [| m ms IH]; intros this Hu; simpl.
    + exact Hu.
    + rewrite exec_bind. apply IH, unique_applyMatchResult, Hu.
  - clear Hu Hranked. revert this.
    induction ms as [| m ms IH]; intros this.
    + change (exec (applyMatches []) this) with this.
      cbn [length]. repeat split; lia.
    + cbn [applyMatches]. rewrite exec_bind. simpl result.
      destruct (balance_applyMatchResult (mrHomeTeam m) (mrAwayTeam m)
                  (mrHomeScore m) (mrAwayScore m) this)
        as (Hp & Hg & Hw & Hpt).
      destruct (IH (exec (applyMatchResult (mrHomeTeam m) (mrAwayTeam m)
                            (mrHomeScore m) (mrAwayScore m)) this))
        as (Hp' & Hg' & Hw' & Hpt').
      cbn [length]. repeat split; lia.
Qed.

(** Three matches of three teams from an empty table. *)
Lemma applyMatches_league_witness :
  let s' := standings
              (exec (applyMatches [mkMatchResult "A" "B" 3 1;
                                   mkMatchResult "B" "C" 2 2;
                                   mkMatchResult "C" "A" 0 1])
                 (mkLeaderboard 1 [] None None None)) in
  uniqueTeams s' /\ total played s' = 6 /\
  total goalsFor s' = total goalsAgainst s' /\
  total won s' = total lost s'.
Proof.
  intros s'.
  pose proof (@applyMatches_league asciiStrings
                (mkLeaderboard 1 [] None None None)
                [mkMatchResult "A" "B" 3 1; mkMatchResult "B" "C" 2 2;
                 mkMatchResult "C" "A" 0 1]
                ltac:(constructor))
    as (Hu & _ & Hp & Hg & Hw & _).
  fold s' in Hu, Hp, Hg, Hw. clearbody s'.
  change (standings (mkLeaderboard 1 [] None None None))
    with (@nil LeaderboardEntry) in Hp, Hg, Hw.
  unfold total at 2 in Hp. unfold total at 3 4 in Hg.
  unfold total at 3 4 in Hw. simpl in Hp, Hg, Hw.
  repeat split; [exact Hu | lia | lia | lia].
Defined.
